(** * VideoVault: the download-job API and its client poller

    A shallow embedding of

    - [src/backend/api.ts]: the edge worker (platform detection, id
      generation, the request router, the in-memory job table and the three
      timer callbacks that simulate a download), and
    - [src/lib/api.ts]: the client helpers [isValidVideoUrl] and
      [pollDownloadStatus].

    How the program is read:

    - strings are sequences of 8-bit code units;
    - time is a count of milliseconds, and [new Date().toISOString()] is
      kept as that count;
    - [Math.random()] and [Date.now()] are inputs of the request that calls
      them: the draw as its radix-36 fraction digits, the time as a number;
    - the job table is the plain object [downloadStatuses]: its own entries
      are a finite map, and a lookup that finds no entry goes on to
      [Object.prototype];
    - the worker is an event loop: a request is handled, or the earliest
      due [setTimeout] callback runs;
    - a throw is a result ([Client.completion]), [try]/[catch] a function
      on results. *)

From stdpp Require Import gmap strings list.
From Stdlib Require Import Ascii String ZArith NArith Lia Bool Sorted.

Open Scope string_scope.

(** ** Characters and string helpers *)

Module Chars.

Definition code (c : ascii) : N := N_of_ascii c.

Definition between (lo hi : N) (c : ascii) : bool :=
  (lo <=? code c)%N && (code c <=? hi)%N.

(** [\d] *)
Definition digit (c : ascii) : bool := between 48 57 c.
(** [a-z] *)
Definition lower (c : ascii) : bool := between 97 122 c.
(** [A-Z] *)
Definition upper (c : ascii) : bool := between 65 90 c.
(** [\w], which is [[A-Za-z0-9_]] *)
Definition word (c : ascii) : bool :=
  lower c || upper c || digit c || Ascii.eqb c "_".
(** [[a-zA-Z0-9_-]] *)
Definition word_dash (c : ascii) : bool := word c || Ascii.eqb c "-".
(** [[^/]] *)
Definition not_slash (c : ascii) : bool := negb (Ascii.eqb c "/").
(** [.] : anything but a line terminator *)
Definition dot (c : ascii) : bool :=
  negb (Ascii.eqb c "010" || Ascii.eqb c "013").
(** [[a-z0-9_]] *)
Definition lower_digit_us (c : ascii) : bool :=
  lower c || digit c || Ascii.eqb c "_".

(** [String.prototype.toUpperCase] on one ASCII code unit (it is applied
    to the first letter of the platform names, which are ASCII). *)
Definition toUpperCase (c : ascii) : ascii :=
  if lower c then ascii_of_N (code c - 32) else c.

End Chars.

Module Str.

Fixpoint all (p : ascii -> bool) (s : string) : bool :=
  match s with
  | EmptyString => true
  | String c s' => p c && all p s'
  end.

(** The rest of [s] after the prefix [p], when [s] starts with [p]. *)
Fixpoint strip_prefix (p s : string) : option string :=
  match p, s with
  | EmptyString, _ => Some s
  | String a p', String b s' => if Ascii.eqb a b then strip_prefix p' s' else None
  | String _ _, EmptyString => None
  end.

(** [s.startsWith(p)] *)
Definition startsWith (p s : string) : bool :=
  match strip_prefix p s with
  | Some _ => true
  | None => false
  end.

(** [s.includes(d)] *)
Fixpoint includes (d s : string) : bool :=
  startsWith d s ||
  match s with
  | EmptyString => false
  | String _ s' => includes d s'
  end.

(** [s.endsWith(d)] *)
Fixpoint endsWith (d s : string) : bool :=
  String.eqb d s ||
  match s with
  | EmptyString => false
  | String _ s' => endsWith d s'
  end.

(** [s.substr(start, len)] for non-negative arguments. *)
Definition substr (start len : nat) (s : string) : string :=
  String.substring start (Nat.min len (String.length s - start)) s.

(** [s.charAt(0).toUpperCase() + s.slice(1)] *)
Definition capitalize (s : string) : string :=
  match s with
  | EmptyString => EmptyString
  | String c s' => String (Chars.toUpperCase c) s'
  end.

End Str.

(** ** Regular expressions

    The patterns of the source use literals, character classes,
    alternation, [+], [*] and a counted repetition, and are applied with
    [RegExp.prototype.test]: does some substring match?  That is a question
    about the language of the pattern, which derivatives decide. *)

Module Regex.

Inductive regex : Type :=
| Never
| Eps
| Class (p : ascii -> bool)
| Seq (r1 r2 : regex)
| Alt (r1 r2 : regex)
| Star (r : regex).

(** The language of a pattern. *)
Inductive matches : regex -> string -> Prop :=
| m_eps : matches Eps ""
| m_class p c : p c = true -> matches (Class p) (String c "")
| m_seq r1 r2 s1 s2 :
    matches r1 s1 -> matches r2 s2 -> matches (Seq r1 r2) (s1 ++ s2)
| m_alt_l r1 r2 s : matches r1 s -> matches (Alt r1 r2) s
| m_alt_r r1 r2 s : matches r2 s -> matches (Alt r1 r2) s
| m_star_nil r : matches (Star r) ""
| m_star_cons r c s1 s2 :
    matches r (String c s1) -> matches (Star r) s2 ->
    matches (Star r) (String c s1 ++ s2).

Fixpoint lit (s : string) : regex :=
  match s with
  | EmptyString => Eps
  | String c s' => Seq (Class (Ascii.eqb c)) (lit s')
  end.

Definition plus (r : regex) : regex := Seq r (Star r).

Fixpoint times (n : nat) (r : regex) : regex :=
  match n with
  | O => Eps
  | S n' => Seq r (times n' r)
  end.

Fixpoint nullable (r : regex) : bool :=
  match r with
  | Never => false
  | Eps => true
  | Class _ => false
  | Seq r1 r2 => nullable r1 && nullable r2
  | Alt r1 r2 => nullable r1 || nullable r2
  | Star _ => true
  end.

Definition seq' (r1 r2 : regex) : regex :=
  match r1 with
  | Never => Never
  | Eps => r2
  | _ => Seq r1 r2
  end.

Definition alt' (r1 r2 : regex) : regex :=
  match r1, r2 with
  | Never, _ => r2
  | _, Never => r1
  | _, _ => Alt r1 r2
  end.

Fixpoint deriv (c : ascii) (r : regex) : regex :=
  match r with
  | Never => Never
  | Eps => Never
  | Class p => if p c then Eps else Never
  | Seq r1 r2 =>
      alt' (seq' (deriv c r1) r2) (if nullable r1 then deriv c r2 else Never)
  | Alt r1 r2 => alt' (deriv c r1) (deriv c r2)
  | Star r1 => seq' (deriv c r1) (Star r1)
  end.

(** The whole of [s] is in the language of [r]. *)
Fixpoint full (r : regex) (s : string) : bool :=
  match s with
  | EmptyString => nullable r
  | String c s' => full (deriv c r) s'
  end.

(** Some prefix of [s] is in the language of [r]. *)
Fixpoint here (r : regex) (s : string) : bool :=
  nullable r ||
  match s with
  | EmptyString => false
  | String c s' => here (deriv c r) s'
  end.

(** [r.test(s)] for a pattern without flags: a match may start anywhere. *)
Fixpoint test (r : regex) (s : string) : bool :=
  here r s ||
  match s with
  | EmptyString => false
  | String _ s' => test r s'
  end.

End Regex.

(** ** Platform detection ([src/backend/api.ts]) *)

Import Regex.

Definition re_youtube : regex :=
  Seq (Alt (lit "youtube.com/watch?v=") (lit "youtu.be/"))
      (times 11 (Class Chars.word_dash)).

Definition re_tiktok : regex :=
  Seq (lit "tiktok.com/@")
      (Seq (plus (Class Chars.not_slash))
           (Seq (lit "/video/") (plus (Class Chars.digit)))).

Definition re_instagram : regex :=
  Seq (lit "instagram.com/")
      (Seq (Alt (lit "p") (lit "reel"))
           (Seq (lit "/") (plus (Class Chars.word_dash)))).

Definition re_twitter : regex :=
  Seq (Alt (lit "twitter.com") (lit "x.com"))
      (Seq (lit "/")
           (Seq (plus (Class Chars.word))
                (Seq (lit "/status/") (plus (Class Chars.digit))))).

Definition re_vimeo : regex :=
  Seq (lit "vimeo.com/") (plus (Class Chars.digit)).

Definition re_facebook : regex :=
  Seq (lit "facebook.com/")
      (Seq (Star (Class Chars.dot))
           (Seq (lit "/videos/") (plus (Class Chars.digit)))).

Definition re_twitch : regex :=
  Seq (lit "twitch.tv/videos/") (plus (Class Chars.digit)).

(** The table, in the order [Object.entries] walks it. *)
Definition platformPatterns : list (string * regex) :=
  [ ("youtube", re_youtube);
    ("tiktok", re_tiktok);
    ("instagram", re_instagram);
    ("twitter", re_twitter);
    ("vimeo", re_vimeo);
    ("facebook", re_facebook);
    ("twitch", re_twitch) ].

Fixpoint detect_in (ps : list (string * regex)) (url : string) : string :=
  match ps with
  | [] => "Unknown"
  | (platform, pattern) :: ps' =>
      if test pattern url then Str.capitalize platform else detect_in ps' url
  end.

Definition detectPlatform (url : string) : string :=
  detect_in platformPatterns url.


(** ** Job identifiers ([generateDownloadId]) *)

(** One digit of a radix-36 numeral: [0-9] then [a-z]. *)
Definition digit36 (d : N) : ascii :=
  if (d <? 10)%N then ascii_of_N (48 + d) else ascii_of_N (87 + d).

Fixpoint to36 (fuel : nat) (n : N) (acc : string) : string :=
  match fuel with
  | O => acc
  | S fuel' =>
      let acc' := String (digit36 (n mod 36)) acc in
      if (n / 36 =? 0)%N then acc' else to36 fuel' (n / 36) acc'
  end.

(** [n.toString(36)] for a non-negative integer [n]; a numeral of [n] has
    no more radix-36 digits than binary ones. *)
Definition toString36 (n : N) : string := to36 (S (N.to_nat (N.log2 n))) n "".

(** The value of a radix-36 numeral, to read [toString36] back. *)
Definition value36 (c : ascii) : N :=
  if Chars.digit c then Chars.code c - 48 else Chars.code c - 87.

Fixpoint parse36 (acc : N) (s : string) : N :=
  match s with
  | EmptyString => acc
  | String c s' => parse36 (36 * acc + value36 c) s'
  end.

Fixpoint string_of_digits (ds : list N) : string :=
  match ds with
  | [] => EmptyString
  | d :: ds' => String (digit36 d) (string_of_digits ds')
  end.

(** [Math.random().toString(36)].  The draw lies in [0, 1) and the engine
    chooses how many fraction digits it prints, so the draw is given by
    its radix-36 fraction digits [ds]: no digit prints as ["0"], and
    otherwise the numeral is ["0."] followed by the digits. *)
Definition random36 (ds : list N) : string :=
  match ds with
  | [] => "0"
  | _ => "0." ++ string_of_digits ds
  end.

(** [rnd] is the draw of [Math.random()], [now] is [Date.now()]. *)
Definition generateDownloadId (rnd : list N) (now : N) : string :=
  "dl_" ++ Str.substr 2 9 (random36 rnd) ++ toString36 now.

(** ** Job records and the job table *)

Inductive Status : Type := processing | completed | error | queued.

(** The string a status is on the wire. *)
Definition status_name (s : Status) : string :=
  match s with
  | processing => "processing"
  | completed => "completed"
  | error => "error"
  | queued => "queued"
  end.

Record DownloadStatus : Type := mkDownloadStatus {
  ds_id : string;
  ds_status : Status;
  ds_progress : Z;
  ds_downloadUrl : option string;
  ds_error : option string;
  ds_createdAt : N;
  ds_completedAt : option N
}.

(** [downloadStatuses] is a plain object created by [{}]: reading a
    property finds the object's own entries first and then the members of
    [Object.prototype], all of which are functions or objects, so truthy. *)
Definition object_prototype_names : list string :=
  [ "constructor"; "hasOwnProperty"; "isPrototypeOf"; "propertyIsEnumerable";
    "toLocaleString"; "toString"; "valueOf"; "__proto__";
    "__defineGetter__"; "__defineSetter__"; "__lookupGetter__";
    "__lookupSetter__" ].

Inductive Slot : Type :=
| Own (r : DownloadStatus)
| Inherited.

(** [table[key]]; [None] is [undefined]. *)
Definition get_prop (table : gmap string DownloadStatus) (key : string)
  : option Slot :=
  match table !! key with
  | Some r => Some (Own r)
  | None =>
      if bool_decide (key ∈ object_prototype_names) then Some Inherited
      else None
  end.

(** ** Timers

    The three [setTimeout] callbacks of a submission, as data.  Pending
    timers are kept in the order they will run: by due time, and among
    equal due times in the order they were set. *)

Inductive Stage : Type := after1000 | after2000 | after3000.

Record Timer : Type := mkTimer {
  t_due : N;
  t_job : string;      (* the [downloadId] the closure captured *)
  t_format : string;   (* the [body.format] the closure captured *)
  t_stage : Stage
}.

Fixpoint schedule (t : Timer) (q : list Timer) : list Timer :=
  match q with
  | [] => [t]
  | u :: q' =>
      if (t_due u <=? t_due t)%N then u :: schedule t q' else t :: q
  end.

(** [setTimeout(callback, delay)] called at time [now]. *)
Definition setTimeout (now : N) (job format : string) (stage : Stage)
    (delay : N) (q : list Timer) : list Timer :=
  schedule (mkTimer (now + delay) job format stage) q.

(** What a callback writes into the record it finds. *)
Definition write_stage (now : N) (t : Timer) (r : DownloadStatus)
  : DownloadStatus :=
  match t_stage t with
  | after1000 =>
      mkDownloadStatus (ds_id r) processing 25%Z (ds_downloadUrl r) (ds_error r)
        (ds_createdAt r) (ds_completedAt r)
  | after2000 =>
      mkDownloadStatus (ds_id r) processing 75%Z (ds_downloadUrl r) (ds_error r)
        (ds_createdAt r) (ds_completedAt r)
  | after3000 =>
      mkDownloadStatus (ds_id r) completed 100%Z
        (Some ("/files/" ++ t_job t ++ "." ++ t_format t)) (ds_error r)
        (ds_createdAt r) (Some now)
  end.

(** A callback body: [if (downloadStatuses[downloadId]) { ... }].  When the
    lookup lands on a member of [Object.prototype] the writes go to that
    built-in and the job table keeps its entries. *)
Definition run_callback (now : N) (t : Timer)
    (table : gmap string DownloadStatus) : gmap string DownloadStatus :=
  match get_prop table (t_job t) with
  | Some (Own r) => <[t_job t := write_stage now t r]> table
  | Some Inherited => table
  | None => table
  end.

(** ** The worker: requests, responses and the router *)

(** The parsed JSON body.  [NoJson] is a body [request.json()] rejects, or
    [null], whose properties cannot be read; a field is [None] when it is
    absent.  Field values are strings, as [DownloadRequest] declares. *)
Inductive Body : Type :=
| NoJson
| Json (url format quality : option string).

Record Request : Type := mkRequest {
  method : string;
  pathname : string;
  origin : option string;
  body : Body
}.

Inductive Payload : Type :=
| Empty                                             (* preflight: no body *)
| Health (timestamp : N)
| Failure (message : string)                        (* [{ error }] *)
| NoRoute (path : string)                           (* [{ error, path }] *)
| VideoInfoOf (platform : string)                   (* [{ videoInfo }] *)
| Created (downloadId : string) (status : DownloadStatus)
| StatusOf (slot : Slot)                            (* [{ status }] *)
| Platforms (names : list string).

Record Response : Type := mkResponse {
  code : nat;
  allowOrigin : string;
  payload : Payload
}.

Record State : Type := mkState {
  downloadStatuses : gmap string DownloadStatus;
  timers : list Timer;
  clock : N
}.

Definition init : State := mkState ∅ [] 0%N.

(** Of the headers [corsHeaders(origin)] builds, the one that varies:
    [Access-Control-Allow-Origin], which is the [Origin] header of the
    request when it has a non-empty one and ["*"] otherwise. *)
Definition corsHeaders (origin : option string) : string :=
  match origin with
  | Some (String c o) => String c o
  | _ => "*"
  end.

(** JavaScript truthiness of an optional string field. *)
Definition truthy (v : option string) : bool :=
  match v with
  | Some (String _ _) => true
  | _ => false
  end.

Definition text (v : option string) : string := default "" v.

(** [pathname.match(/^\/api\/download\/([a-zA-Z0-9_]+)$/)]: the captured
     id, when the path has that shape. *)
Definition downloadMatch (path : string) : option string :=
  match Str.strip_prefix "/api/download/" path with
  | Some (String c rest) =>
      if Str.all Chars.word (String c rest) then Some (String c rest) else None
  | _ => None
  end.

(** The same pattern as a regular expression, to compare with. *)
Definition re_download_route : regex :=
  Seq (lit "/api/download/") (plus (Class Chars.word)).

Definition same (a b : string) : bool := String.eqb a b.

(** [fetch]: one request handled at time [now]; [rnd] is the draw
    [generateDownloadId] takes from [Math.random()].  The handler runs to
    its response without yielding to a timer, so the state it returns has
    the timers set and none of them run.  For [/api/video-info] only the
    status code and the platform are kept (that route reads no state). *)
Definition fetch (now : N) (rnd : list N) (req : Request) (s : State)
  : State * Response :=
  let reply c p := mkResponse c (corsHeaders (origin req)) p in
  if same (method req) "OPTIONS" then (s, reply 200 Empty)
  else if same (pathname req) "/api/health" && same (method req) "GET" then
    (s, reply 200 (Health now))
  else if same (pathname req) "/api/video-info" && same (method req) "POST" then
    match body req with
    | NoJson => (s, reply 500 (Failure "Internal Server Error"))
    | Json url _ _ =>
        if negb (truthy url) then (s, reply 400 (Failure "URL is required"))
        else
          let platform := detectPlatform (text url) in
          if same platform "Unknown" then
            (s, reply 400 (Failure "Unsupported platform or invalid URL"))
          else (s, reply 200 (VideoInfoOf platform))
    end
  else if same (pathname req) "/api/download" && same (method req) "POST" then
    match body req with
    | NoJson => (s, reply 500 (Failure "Internal Server Error"))
    | Json url format quality =>
        if negb (truthy url) || negb (truthy format) || negb (truthy quality)
        then (s, reply 400 (Failure "URL, format, and quality are required"))
        else
          let platform := detectPlatform (text url) in
          if same platform "Unknown" then
            (s, reply 400 (Failure "Unsupported platform"))
          else
            let downloadId := generateDownloadId rnd now in
            let downloadStatus :=
              mkDownloadStatus downloadId queued 0%Z None None now None in
            let table := <[downloadId := downloadStatus]> (downloadStatuses s) in
            let q1 := setTimeout now downloadId (text format) after1000 1000%N
                        (timers s) in
            let q2 := setTimeout now downloadId (text format) after2000 2000%N q1 in
            let q3 := setTimeout now downloadId (text format) after3000 3000%N q2 in
            (mkState table q3 (clock s),
             reply 200 (Created downloadId downloadStatus))
    end
  else
    match downloadMatch (pathname req), same (method req) "GET" with
    | Some downloadId, true =>
        match get_prop (downloadStatuses s) downloadId with
        | None => (s, reply 404 (Failure "Download not found"))
        | Some slot => (s, reply 200 (StatusOf slot))
        end
    | _, _ =>
        if same (pathname req) "/api/supported-platforms" && same (method req) "GET"
        then (s, reply 200 (Platforms (map (fun p => Str.capitalize (fst p))
                                           platformPatterns)))
        else (s, reply 404 (NoRoute (pathname req)))
    end.

(** ** The event loop

    Two things happen to the worker: a request arrives and is handled, or
    the earliest pending timer, being due, runs its callback.  Events carry
    the time at which they happen; time does not run backwards. *)

Inductive Event : Type :=
| Arrive (now : N) (rnd : list N) (req : Request)
| Fire (now : N).

Definition tick (now : N) (s : State) : State :=
  mkState (downloadStatuses s) (timers s) now.

Definition step (s : State) (e : Event) : option (State * option Response) :=
  match e with
  | Arrive now rnd req =>
      if (clock s <=? now)%N then
        let '(s', r) := fetch now rnd req (tick now s) in Some (s', Some r)
      else None
  | Fire now =>
      match timers s with
      | t :: q =>
          if (clock s <=? now)%N && (t_due t <=? now)%N then
            Some (mkState (run_callback now t (downloadStatuses s)) q now, None)
          else None
      | [] => None
      end
  end.

Fixpoint exec (s : State) (es : list Event) : option State :=
  match es with
  | [] => Some s
  | e :: es' =>
      match step s e with
      | Some (s', _) => exec s' es'
      | None => None
      end
  end.

(** The id a step hands out, if it creates a job. *)
Definition issued (s : State) (e : Event) : option string :=
  match step s e with
  | Some (_, Some r) =>
      match payload r with
      | Created downloadId _ => Some downloadId
      | _ => None
      end
  | _ => None
  end.

(** The id generator never repeats itself along a run: every id handed out
    is new to the table. *)
Definition fresh (s : State) (e : Event) : bool :=
  match issued s e with
  | Some downloadId => bool_decide (downloadStatuses s !! downloadId = None)
  | None => true
  end.

Fixpoint unique_ids (s : State) (es : list Event) : bool :=
  match es with
  | [] => true
  | e :: es' =>
      fresh s e &&
      match step s e with
      | Some (s', _) => unique_ids s' es'
      | None => true
      end
  end.

Definition reachable (s : State) : Prop :=
  exists es, exec init es = Some s /\ unique_ids init es = true.

(** The requests of the job endpoints, as a client without an [Origin]
    header sends them. *)
Definition post_download (url format quality : option string) : Request :=
  mkRequest "POST" "/api/download" None (Json url format quality).

Definition get_status (downloadId : string) : Request :=
  mkRequest "GET" ("/api/download/" ++ downloadId) None NoJson.

Definition get_file (downloadId : string) : Request :=
  mkRequest "GET" ("/api/download/" ++ downloadId ++ "/file") None NoJson.

Definition cleanup (downloadId : string) : Request :=
  mkRequest "DELETE" ("/api/download/" ++ downloadId) None NoJson.

(** The requests above carry no [Origin] header; this adds one. *)
Definition with_origin (o : string) (req : Request) : Request :=
  mkRequest (method req) (pathname req) (Some o) (body req).


(** A URL some pattern of the table matches. *)
Definition known_platform (url : string) : Prop :=
  exists name pattern,
    (name, pattern) ∈ platformPatterns /\ test pattern url = true.

(** ** The client ([src/lib/api.ts]) *)

Module Client.

Inductive Status : Type := queued | processing | completed | error | expired.

Record DownloadStatus : Type := mkDownloadStatus {
  id : string;
  status : Status;
  progress : Z;
  title : option string;
  file_size : option N;
  download_url : option string;
  error_message : option string;
  created_at : string;
  completed_at : option string;
  expires_at : option string
}.

(** What can be thrown: the [TypeError] of the [URL] constructor or of a
    failed network call, the client's own [APIError], anything else. *)
Inductive exn : Type :=
| TypeError (message : string)
| APIError (message : string) (http : option nat)
| OtherError (message : string).

(** How an evaluation ends: with a value or with a throw. *)
Inductive completion (A : Type) : Type :=
| Normal (a : A)
| Throw (e : exn).
Arguments Normal {A} a.
Arguments Throw {A} e.

Definition bind {A B : Type} (m : completion A) (k : A -> completion B)
  : completion B :=
  match m with
  | Normal a => k a
  | Throw e => Throw e
  end.

(** [try { body } catch { handler }] *)
Definition try_catch {A : Type} (body : completion A)
    (handler : exn -> completion A) : completion A :=
  match body with
  | Normal a => Normal a
  | Throw e => handler e
  end.

(** The part of a parsed URL the client reads. *)
Record URL : Type := mkURL { hostname : string }.

Definition supportedDomains : list string :=
  [ "youtube.com"; "youtu.be"; "tiktok.com"; "instagram.com";
    "twitter.com"; "x.com"; "vimeo.com"; "facebook.com";
    "twitch.tv"; "dailymotion.com"; "soundcloud.com"; "reddit.com" ].

Section IsValidVideoUrl.

(** [new URL(url)], the platform's parser: it returns a record or throws. *)
Variable newURL : string -> completion URL.

Definition isValidVideoUrl (url : string) : completion bool :=
  try_catch
    (bind (newURL url) (fun urlObj =>
       Normal (existsb
                 (fun domain =>
                    Str.includes domain (hostname urlObj)
                    || Str.endsWith domain (hostname urlObj))
                 supportedDomains)))
    (fun _ => Normal false).

End IsValidVideoUrl.

(** A small parser to run [isValidVideoUrl] on examples: it accepts
    [https://host] and [https://host/...] with a non-empty host and throws
    on every other string. *)
Fixpoint upto_slash (s : string) : string :=
  match s with
  | EmptyString => EmptyString
  | String c s' => if Ascii.eqb c "/" then EmptyString else String c (upto_slash s')
  end.

Definition httpsURL (s : string) : completion URL :=
  match Str.strip_prefix "https://" s with
  | Some rest =>
      match upto_slash rest with
      | EmptyString => Throw (TypeError "Invalid URL")
      | host => Normal (mkURL host)
      end
  | None => Throw (TypeError "Invalid URL")
  end.

(** *** [pollDownloadStatus] *)

Definition terminal (s : Status) : bool :=
  match s with
  | completed | error | expired => true
  | queued | processing => false
  end.

Inductive Settled : Type :=
| Resolved (s : DownloadStatus)
| Rejected (e : exn).

(** What a run of the poller did: how many times it called
    [api.getDownloadStatus], the arguments of its [onUpdate] calls in
    order, and how its promise settled ([None]: not yet). *)
Record Polled : Type := mkPolled {
  reads : nat;
  updates : list DownloadStatus;
  outcome : option Settled
}.

Definition timeout_error : exn :=
  APIError "Download timeout - please try again" None.

Section Poll.

(** The answer of the [k]-th call of [api.getDownloadStatus(jobId)]
    (counted from 1), the caller's callback, and the attempt bound. *)
Variable getDownloadStatus : nat -> completion DownloadStatus.
Variable onUpdate : DownloadStatus -> completion unit.
Variable maxAttempts : Z.

(** One call of [poll] and, through [setTimeout(poll, intervalMs)], the
    calls that follow it; [fuel] bounds their number. *)
Fixpoint poll (fuel : nat) (attempts : nat) : Polled :=
  match fuel with
  | O => mkPolled 0 [] None
  | S fuel' =>
      let attempts := S attempts in
      match getDownloadStatus attempts with
      | Throw e => mkPolled 1 [] (Some (Rejected e))
      | Normal status =>
          match onUpdate status with
          | Throw e => mkPolled 1 [status] (Some (Rejected e))
          | Normal _ =>
              if terminal (Client.status status) then
                mkPolled 1 [status] (Some (Resolved status))
              else if (maxAttempts <=? Z.of_nat attempts)%Z then
                mkPolled 1 [status] (Some (Rejected timeout_error))
              else
                let rest := poll fuel' attempts in
                mkPolled (S (reads rest)) (status :: updates rest) (outcome rest)
          end
      end
  end.

(** The first call always happens; a further one only while
    [attempts < maxAttempts]. *)
Definition pollDownloadStatus : Polled :=
  poll (Z.to_nat (Z.max 1 maxAttempts)) 0.

(** The statuses the first [n] calls returned. *)
Definition statuses_read (n : nat) : list DownloadStatus :=
  omap (fun k => match getDownloadStatus k with
                 | Normal s => Some s
                 | Throw _ => None
                 end) (seq 1 n).

(** Call [k] returned a status and [onUpdate] took it without throwing. *)
Definition delivered (k : nat) (s : DownloadStatus) : Prop :=
  getDownloadStatus k = Normal s /\ onUpdate s = Normal tt.

(** Call [k] was answered with a status that is not terminal. *)
Definition pending_at (k : nat) : Prop :=
  exists s, delivered k s /\ terminal (status s) = false.

(** Call [k] is the first to be answered with a terminal status. *)
Definition first_terminal_at (k : nat) (s : DownloadStatus) : Prop :=
  1 <= k
  /\ (forall j, 1 <= j < k -> pending_at j)
  /\ delivered k s
  /\ terminal (status s) = true.

End Poll.

End Client.

(** ** The invariant of the job table

    A record and its pending callbacks go together: what the record shows
    tells which callbacks are still to run. *)

Inductive phase : Status -> Z -> list Stage -> Prop :=
| phase_queued : phase queued 0 [after1000; after2000; after3000]
| phase_started : phase processing 25 [after2000; after3000]
| phase_advanced : phase processing 75 [after3000]
| phase_completed : phase completed 100 [].

(** The pending timers of one job, in the order they will run. *)
Definition timers_of (downloadId : string) (q : list Timer) : list Timer :=
  filter (fun t => t_job t = downloadId) q.

Definition sorted (q : list Timer) : Prop :=
  StronglySorted (fun a b => (t_due a <= t_due b)%N) q.

Record invariant (s : State) : Prop := mkInvariant {
  inv_sorted : sorted (timers s);
  inv_jobs : forall downloadId,
    match downloadStatuses s !! downloadId with
    | Some r =>
        phase (ds_status r) (ds_progress r)
          (map t_stage (timers_of downloadId (timers s)))
    | None => timers_of downloadId (timers s) = []
    end
}.

(** The formats the mock metadata of [/api/video-info] offers, as
    (quality, format): the only list of format values in the source. *)
Definition availableFormats : list (string * string) :=
  [ ("1080p", "mp4"); ("720p", "mp4"); ("480p", "mp4"); ("360p", "mp4");
    ("audio", "mp3") ].

(** Sample inputs for the examples. *)
Definition sample_url : string := "https://www.youtube.com/watch?v=abc12345678".
Definition sample_rnd : list N := [10; 11; 12; 1; 2; 3; 35; 0; 7; 20; 5]%N.
Definition sample_post : Request :=
  post_download (Some sample_url) (Some "mp4") (Some "720p").

Definition sample_id : string := "dl_abc123z075".

(** The sample job after its first callback, and after its last. *)
Definition sample_started : State :=
  mkState
    {[ sample_id := mkDownloadStatus sample_id processing 25 None None 5 None ]}
    [ mkTimer 2005 sample_id "mp4" after2000;
      mkTimer 3005 sample_id "mp4" after3000 ]
    1005.

Definition sample_completed : State :=
  mkState
    {[ sample_id :=
         mkDownloadStatus sample_id completed 100
           (Some "/files/dl_abc123z075.mp4") None 5 (Some 3005%N) ]}
    []
    3005.

(** Twenty-four hours, the retention the deployment guides speak of. *)
Definition one_day : N := 86400000.

(** Sample inputs for the client: three answers of a server, the last
    one terminal, and a callback that never throws. *)
Definition sample_status (k : nat) : Client.DownloadStatus :=
  Client.mkDownloadStatus "job1"
    (if Nat.ltb k 3 then Client.processing else Client.completed)
    (if Nat.ltb k 3 then Z.of_nat (25 * k) else 100%Z)
    None None None None "2024-01-01T00:00:00.000Z" None None.

Definition sample_server (k : nat) : Client.completion Client.DownloadStatus :=
  Client.Normal (sample_status k).

Definition stuck_server (k : nat) : Client.completion Client.DownloadStatus :=
  Client.Normal (sample_status 1).

Definition quiet (s : Client.DownloadStatus) : Client.completion unit :=
  Client.Normal tt.

(** ** Capture groups ([extractVideoId])

    [url.match(pattern)] needs more than the language of the pattern: the
    first match from the left, found by backtracking (alternatives left to
    right, quantifiers greedy), and the text of its groups.  A pattern here
    is a regular expression with numbered groups, and [run] is the
    backtracking matcher in continuation-passing style. *)

Module Capture.

Inductive pattern : Type :=
| PEps
| PClass (p : ascii -> bool)
| PSeq (a b : pattern)
| PAlt (a b : pattern)
| PStar (a : pattern)
| PGroup (n : nat) (a : pattern).

(** The groups set so far, the latest first. *)
Definition groups : Type := list (nat * string).

Fixpoint group (n : nat) (g : groups) : option string :=
  match g with
  | [] => None
  | (m, v) :: g' => if Nat.eqb m n then Some v else group n g'
  end.

Definition cont : Type := string -> groups -> option groups.

(** What was consumed between [s] and its suffix [s']. *)
Definition consumed (s s' : string) : string :=
  String.substring 0 (String.length s - String.length s') s.

(** Greedy iteration: one more round of the body if it consumes something
    and the rest then matches, otherwise go on with the continuation. *)
Fixpoint star_loop (body : string -> groups -> cont -> option groups)
    (fuel : nat) (s : string) (g : groups) (k : cont) : option groups :=
  match fuel with
  | O => k s g
  | S fuel' =>
      match body s g (fun s' g' =>
                        if Nat.ltb (String.length s') (String.length s)
                        then star_loop body fuel' s' g' k
                        else None) with
      | Some r => Some r
      | None => k s g
      end
  end.

Fixpoint run (p : pattern) (s : string) (g : groups) (k : cont)
  : option groups :=
  match p with
  | PEps => k s g
  | PClass c =>
      match s with
      | String x s' => if c x then k s' g else None
      | EmptyString => None
      end
  | PSeq a b => run a s g (fun s' g' => run b s' g' k)
  | PAlt a b =>
      match run a s g k with
      | Some r => Some r
      | None => run b s g k
      end
  | PStar a => star_loop (run a) (String.length s) s g k
  | PGroup n a => run a s g (fun s' g' => k s' ((n, consumed s s') :: g'))
  end.

(** [s.match(p)] for a pattern without flags: the groups of the first
    match from the left, or [None] for [null]. *)
Fixpoint search (p : pattern) (s : string) : option groups :=
  match run p s [] (fun _ g => Some g) with
  | Some g => Some g
  | None =>
      match s with
      | EmptyString => None
      | String _ s' => search p s'
      end
  end.

Fixpoint plit (s : string) : pattern :=
  match s with
  | EmptyString => PEps
  | String c s' => PSeq (PClass (Ascii.eqb c)) (plit s')
  end.

Definition pplus (a : pattern) : pattern := PSeq a (PStar a).

Fixpoint ptimes (n : nat) (a : pattern) : pattern :=
  match n with
  | O => PEps
  | S n' => PSeq a (ptimes n' a)
  end.

(** The pattern without its groups. *)
Fixpoint erase (p : pattern) : regex :=
  match p with
  | PEps => Eps
  | PClass c => Class c
  | PSeq a b => Seq (erase a) (erase b)
  | PAlt a b => Alt (erase a) (erase b)
  | PStar a => Star (erase a)
  | PGroup _ a => erase a
  end.

(** No group numbered 1 inside. *)
Fixpoint no1 (p : pattern) : bool :=
  match p with
  | PEps | PClass _ => true
  | PSeq a b | PAlt a b => no1 a && no1 b
  | PStar a => no1 a
  | PGroup n a => negb (Nat.eqb n 1) && no1 a
  end.

(** Group 1 lies on the spine of a sequence and has [body] inside. *)
Inductive spine (body : pattern) : pattern -> Prop :=
| spine_last : no1 body = true -> spine body (PGroup 1 body)
| spine_then post :
    no1 body = true -> no1 post = true ->
    spine body (PSeq (PGroup 1 body) post)
| spine_after a q :
    no1 a = true -> spine body q -> spine body (PSeq a q).

(** A continuation that leaves group 1 as it finds it. *)
Definition keeps1 (k : cont) : Prop :=
  forall s g r, k s g = Some r -> group 1 r = group 1 g.

End Capture.

Import Capture.

Definition cap_youtube : pattern :=
  PSeq (PAlt (plit "youtube.com/watch?v=") (plit "youtu.be/"))
       (PGroup 1 (ptimes 11 (PClass Chars.word_dash))).

Definition cap_tiktok : pattern :=
  PSeq (plit "tiktok.com/@")
       (PSeq (pplus (PClass Chars.not_slash))
             (PSeq (plit "/video/") (PGroup 1 (pplus (PClass Chars.digit))))).

Definition cap_instagram : pattern :=
  PSeq (plit "instagram.com/")
       (PSeq (PGroup 1 (PAlt (plit "p") (plit "reel")))
             (PSeq (plit "/") (PGroup 2 (pplus (PClass Chars.word_dash))))).

Definition cap_twitter : pattern :=
  PSeq (PAlt (plit "twitter.com") (plit "x.com"))
       (PSeq (plit "/")
             (PSeq (pplus (PClass Chars.word))
                   (PSeq (plit "/status/") (PGroup 1 (pplus (PClass Chars.digit)))))).

Definition cap_vimeo : pattern :=
  PSeq (plit "vimeo.com/") (PGroup 1 (pplus (PClass Chars.digit))).

Definition cap_facebook : pattern :=
  PSeq (plit "facebook.com/")
       (PSeq (PStar (PClass Chars.dot))
             (PSeq (plit "/videos/") (PGroup 1 (pplus (PClass Chars.digit))))).

Definition cap_twitch : pattern :=
  PSeq (plit "twitch.tv/videos/") (PGroup 1 (pplus (PClass Chars.digit))).

(** [platformPatterns] with its groups, in the same order. *)
Definition capturePatterns : list (string * pattern) :=
  [ ("youtube", cap_youtube);
    ("tiktok", cap_tiktok);
    ("instagram", cap_instagram);
    ("twitter", cap_twitter);
    ("vimeo", cap_vimeo);
    ("facebook", cap_facebook);
    ("twitch", cap_twitch) ].

Fixpoint extract_in (ps : list (string * pattern)) (url : string)
  : option string :=
  match ps with
  | [] => None
  | (_, p) :: ps' =>
      match search p url with
      | Some g => group 1 g
      | None => extract_in ps' url
      end
  end.

(** [extractVideoId]: [match[1]] of the first pattern that matches, [None]
    for [null]. *)
Definition extractVideoId (url : string) : option string :=
  extract_in capturePatterns url.

(** ** Example URLs ([getExampleUrl]) *)

Definition examples : list (string * string) :=
  [ ("youtube", "https://www.youtube.com/watch?v=dQw4w9WgXcQ");
    ("tiktok", "https://www.tiktok.com/@user/video/1234567890");
    ("instagram", "https://www.instagram.com/p/ABC123/");
    ("twitter", "https://twitter.com/user/status/1234567890");
    ("vimeo", "https://vimeo.com/123456789");
    ("facebook", "https://www.facebook.com/user/videos/1234567890");
    ("twitch", "https://www.twitch.tv/videos/1234567890") ].

Fixpoint assoc (key : string) (l : list (string * string)) : option string :=
  match l with
  | [] => None
  | (k, v) :: l' => if same k key then Some v else assoc key l'
  end.

(** What [examples[platform] || ''] evaluates to: a string, or, for the
    name of a member of [Object.prototype], that member. *)
Inductive Looked : Type :=
| Text (s : string)
| Builtin.

Definition getExampleUrl (platform : string) : Looked :=
  match assoc platform examples with
  | Some (String c u) => Text (String c u)
  | Some EmptyString => Text ""
  | None =>
      if bool_decide (platform ∈ object_prototype_names) then Builtin
      else Text ""
  end.

(** The array [GET /api/supported-platforms] answers with: for each key
    of [platformPatterns] its capitalised name and its example (the
    pattern source text is left out). *)
Definition supportedPlatforms : list (string * Looked) :=
  map (fun p => (Str.capitalize (fst p), getExampleUrl (fst p))) platformPatterns.

(** ** The page ([src/App.tsx]) *)

Module App.

(** The page's own [detectPlatform], by substring. *)
Definition detectPlatform (url : string) : string :=
  if negb (truthy (Some url)) then "Unknown"
  else if Str.includes "youtube.com" url || Str.includes "youtu.be" url then "YouTube"
  else if Str.includes "tiktok.com" url then "TikTok"
  else if Str.includes "instagram.com" url then "Instagram"
  else if Str.includes "twitter.com" url || Str.includes "x.com" url then "Twitter"
  else if Str.includes "vimeo.com" url then "Vimeo"
  else if Str.includes "facebook.com" url then "Facebook"
  else if Str.includes "twitch.tv" url then "Twitch"
  else if Str.includes "dailymotion.com" url then "Dailymotion"
  else if Str.includes "soundcloud.com" url then "SoundCloud"
  else if Str.includes "reddit.com" url then "Reddit"
  else "Unknown".

End App.

(** ** More on the job table: fields and times *)

(** The delay a callback was set with. *)
Definition delay (stage : Stage) : N :=
  match stage with
  | after1000 => 1000
  | after2000 => 2000
  | after3000 => 3000
  end.

(** The status and progress pairs the worker writes. *)
Definition written_pair (r : DownloadStatus) : Prop :=
  (ds_status r = queued /\ ds_progress r = 0%Z)
  \/ (ds_status r = processing /\ ds_progress r = 25%Z)
  \/ (ds_status r = processing /\ ds_progress r = 75%Z)
  \/ (ds_status r = completed /\ ds_progress r = 100%Z).



(** Let every pending timer run, at a time [now] by which all are due. *)
Definition drain (now : N) (s : State) : list Event :=
  replicate (List.length (timers s)) (Fire now).

(** ** Decimal numerals *)

Definition digit10 (d : N) : ascii := ascii_of_N (48 + d).

Fixpoint to10 (fuel : nat) (n : N) (acc : string) : string :=
  match fuel with
  | O => acc
  | S fuel' =>
      let acc' := String (digit10 (n mod 10)) acc in
      if (n / 10 =? 0)%N then acc' else to10 fuel' (n / 10) acc'
  end.

(** [String(n)] for a non-negative integer [n]. *)
Definition toString10 (n : N) : string := to10 (S (N.to_nat (N.log2 n))) n "".


(** ** More of the client ([src/lib/api.ts]) *)

Module ClientMore.

Import Client.

(** *** [apiRequest] *)

(** The [detail] property of a parsed body: missing or falsy without
    being a string ([undefined], [null], [false], [0]); a string; or
    another truthy value, with the text [new Error] makes of it. *)
Inductive Detail : Type :=
| NoDetail
| DetailString (s : string)
| DetailOther (shown : string).

(** What [response.json()] parses to: [null], or a value with its
    [detail]. *)
Inductive Parsed (T : Type) : Type :=
| PNull
| PValue (detail : Detail) (value : T).
Arguments PNull {T}.
Arguments PValue {T} detail value.

Record HttpResponse (T : Type) : Type := mkHttpResponse {
  ok : bool;
  status : N;
  statusText : string;
  json : completion (Parsed T)
}.
Arguments mkHttpResponse {T} ok status statusText json.
Arguments ok {T} h.
Arguments status {T} h.
Arguments statusText {T} h.
Arguments json {T} h.

Definition network_error : exn :=
  APIError "Network error - please check your connection and try again" None.

Definition unexpected_error : exn := APIError "An unexpected error occurred" None.

(** [errorData.detail] after [response.json().catch(() => ({ detail:
    'Unknown error' }))]: reading a property of [null] throws. *)
Definition error_detail {T : Type} (response : HttpResponse T)
  : completion Detail :=
  match json response with
  | Normal PNull => Throw (TypeError "Cannot read properties of null")
  | Normal (PValue detail _) => Normal detail
  | Throw _ => Normal (DetailString "Unknown error")
  end.

(** [fetched] is how the call of [fetch] ended. *)
Definition apiRequest {T : Type} (fetched : completion (HttpResponse T))
  : completion (Parsed T) :=
  try_catch
    (bind fetched (fun response =>
       if negb (ok response) then
         bind (error_detail response) (fun detail =>
           Throw (APIError
                    (match detail with
                     | DetailString (String c d) => String c d
                     | DetailOther shown => shown
                     | _ => "HTTP " ++ toString10 (status response) ++ ": "
                              ++ statusText response
                     end)
                    (Some (N.to_nat (status response)))))
       else json response))
    (fun error =>
       match error with
       | APIError _ _ => Throw error
       | TypeError _ => Throw network_error
       | OtherError _ => Throw unexpected_error
       end).

(** *** The endpoints of [api], as requests *)

Definition healthCheck : Request := mkRequest "GET" "/health" None NoJson.

Definition getDownloadStatus (jobId : string) : Request :=
  mkRequest "GET" ("/api/download/" ++ jobId ++ "/status") None NoJson.

(** A response of the worker with a JSON body, as the client's [fetch]
    sees it.  The worker's bodies have no [detail] property (its error
    bodies have [error]); the status text is the transport's. *)
Definition received {T : Type} (statusText : string) (value : T) (r : Response)
  : HttpResponse T :=
  mkHttpResponse (Nat.leb 200 (code r) && Nat.leb (code r) 299)
    (N.of_nat (code r)) statusText (Normal (PValue NoDetail value)).

(** *** [formatDuration], for whole numbers of seconds *)

(** [s.padStart(n, c)] *)
Definition padStart (n : nat) (c : ascii) (s : string) : string :=
  string_of_list_ascii (List.repeat c (n - String.length s)) ++ s.

(** [seconds] is [None] for [undefined]. *)
Definition formatDuration (seconds : option N) : string :=
  match seconds with
  | None | Some 0%N => "Unknown duration"
  | Some seconds =>
      let hours := (seconds / 3600)%N in
      let minutes := ((seconds mod 3600) / 60)%N in
      let remainingSeconds := (seconds mod 60)%N in
      if (0 <? hours)%N then
        toString10 hours ++ ":" ++ padStart 2 "0" (toString10 minutes)
          ++ ":" ++ padStart 2 "0" (toString10 remainingSeconds)
      else
        toString10 minutes ++ ":" ++ padStart 2 "0" (toString10 remainingSeconds)
  end.



End ClientMore.

(* ================================================================== *)
(** * Properties *)

Example detect_youtube :
  detectPlatform "https://www.youtube.com/watch?v=abc12345678" = "Youtube".
Proof. vm_compute. reflexivity. Qed.

Example detect_short_youtube :
  detectPlatform "https://youtu.be/dQw4w9WgXcQ?t=3" = "Youtube".
Proof. vm_compute. reflexivity. Qed.

Example detect_tiktok :
  detectPlatform "https://www.tiktok.com/@user/video/1234567890" = "Tiktok".
Proof. vm_compute. reflexivity. Qed.

Example detect_instagram :
  detectPlatform "https://www.instagram.com/p/ABC123/" = "Instagram".
Proof. vm_compute. reflexivity. Qed.

Example detect_twitter :
  detectPlatform "https://twitter.com/user/status/1234567890" = "Twitter".
Proof. vm_compute. reflexivity. Qed.

Example detect_vimeo :
  detectPlatform "https://vimeo.com/123456789" = "Vimeo".
Proof. vm_compute. reflexivity. Qed.

Example detect_facebook :
  detectPlatform "https://www.facebook.com/user/videos/1234567890" = "Facebook".
Proof. vm_compute. reflexivity. Qed.

Example detect_twitch :
  detectPlatform "https://www.twitch.tv/videos/1234567890" = "Twitch".
Proof. vm_compute. reflexivity. Qed.

Example detect_short_id :
  detectPlatform "https://www.youtube.com/watch?v=abc" = "Unknown".
Proof. vm_compute. reflexivity. Qed.

Example detect_other_site :
  detectPlatform "https://example.com/video" = "Unknown".
Proof. vm_compute. reflexivity. Qed.

Example detect_not_a_url : detectPlatform "not-a-url" = "Unknown".
Proof. vm_compute. reflexivity. Qed.

Example detect_empty : detectPlatform "" = "Unknown".
Proof. vm_compute. reflexivity. Qed.

(** ** Strings and the router's path tests *)

Lemma same_true a b : same a b = true <-> a = b.
Proof. apply String.eqb_eq. Qed.

Lemma same_false a b : same a b = false <-> a <> b.
Proof. apply String.eqb_neq. Qed.

Lemma all_app p a b : Str.all p (a ++ b) = Str.all p a && Str.all p b.
Proof.
  induction a as [|c a IH]; simpl; [reflexivity|].
  rewrite IH. apply andb_assoc.
Qed.

Lemma all_weaken (p q : ascii -> bool) s :
  (forall c, p c = true -> q c = true) -> Str.all p s = true -> Str.all q s = true.
Proof.
  intros Hpq. induction s as [|c s IH]; simpl; [reflexivity|].
  intros [Hc Hs]%andb_true_iff. rewrite (Hpq _ Hc). simpl. auto.
Qed.

Lemma strip_prefix_app p s : Str.strip_prefix p (p ++ s) = Some s.
Proof.
  induction p as [|c p IH]; simpl; [reflexivity|].
  rewrite Ascii.eqb_refl. exact IH.
Qed.

Lemma strip_prefix_Some p s rest : Str.strip_prefix p s = Some rest -> s = p ++ rest.
Proof.
  revert s. induction p as [|c p IH]; intros s; simpl.
  - intros [= ->]. reflexivity.
  - destruct s as [|d s]; [discriminate|].
    destruct (Ascii.eqb c d) eqn:E; [|discriminate].
    apply Ascii.eqb_eq in E. subst d. intros H.
    rewrite (IH _ H). reflexivity.
Qed.

Lemma append_inj_l (p a b : string) : p ++ a = p ++ b -> a = b.
Proof.
  induction p as [|c p IH]; simpl; [auto|]. intros [= H]. auto.
Qed.

(** The path of a status request is taken apart as the route pattern says. *)
Lemma downloadMatch_path x :
  downloadMatch ("/api/download/" ++ x) =
  match x with
  | EmptyString => None
  | String _ _ => if Str.all Chars.word x then Some x else None
  end.
Proof.
  unfold downloadMatch. rewrite strip_prefix_app. destruct x; reflexivity.
Qed.

Lemma downloadMatch_Some path x :
  downloadMatch path = Some x ->
  path = "/api/download/" ++ x /\ x <> "" /\ Str.all Chars.word x = true.
Proof.
  unfold downloadMatch.
  destruct (Str.strip_prefix "/api/download/" path) as [rest|] eqn:E; [|discriminate].
  destruct rest as [|c rest]; [discriminate|].
  destruct (Str.all Chars.word (String c rest)) eqn:A; [|discriminate].
  intros [= <-]. apply strip_prefix_Some in E.
  split; [exact E|]. split; [discriminate | exact A].
Qed.

(** ** Platform detection *)

Lemma detect_in_unknown ps url :
  Forall (fun p => Str.capitalize (fst p) <> "Unknown") ps ->
  detect_in ps url = "Unknown" <-> Forall (fun p => test (snd p) url = false) ps.
Proof.
  induction 1 as [|[name pattern] ps Hname Hps IH]; simpl.
  - split; auto.
  - destruct (test pattern url) eqn:T.
    + split; [intros E; contradiction | intros F; inversion F; simpl in *; congruence].
    + rewrite IH. split; [intros F; constructor; auto | intros F; inversion F; auto].
Qed.

Lemma platform_names : Forall (fun p => Str.capitalize (fst p) <> "Unknown") platformPatterns.
Proof. repeat constructor; discriminate. Qed.

Lemma detectPlatform_known url : known_platform url <-> detectPlatform url <> "Unknown".
Proof.
  unfold known_platform, detectPlatform.
  rewrite (detect_in_unknown _ _ platform_names), Forall_forall.
  split.
  - intros (name & pattern & Hin & T) F.
    specialize (F _ Hin). simpl in F. congruence.
  - intros NF.
    destruct (existsb (fun p => test (snd p) url) platformPatterns) eqn:E.
    + apply existsb_exists in E as ([name pattern] & Hin & T).
      exists name, pattern. split; [apply list_elem_of_In|]; auto.
    + exfalso. apply NF. intros p Hin%list_elem_of_In.
      destruct (test (snd p) url) eqn:T; [|reflexivity].
      assert (existsb (fun p => test (snd p) url) platformPatterns = true)
        by (apply existsb_exists; eauto).
      congruence.
Qed.

Lemma known_platform_nonempty url : known_platform url -> url <> "".
Proof.
  intros K%detectPlatform_known ->. apply K. vm_compute. reflexivity.
Qed.

(** ** Job identifiers *)

Lemma digit36_class d :
  (d < 36)%N -> Chars.lower_digit_us (digit36 d) = true.
Proof.
  intros Hd. unfold digit36, Chars.lower_digit_us, Chars.lower, Chars.digit,
    Chars.between, Chars.code.
  destruct (d <? 10)%N eqn:E.
  - apply N.ltb_lt in E. rewrite N_ascii_embedding by lia.
    replace (48 <=? 48 + d)%N with true by (symmetry; apply N.leb_le; lia).
    replace (48 + d <=? 57)%N with true by (symmetry; apply N.leb_le; lia).
    simpl. rewrite orb_true_r. reflexivity.
  - apply N.ltb_ge in E. rewrite N_ascii_embedding by lia.
    replace (97 <=? 87 + d)%N with true by (symmetry; apply N.leb_le; lia).
    replace (87 + d <=? 122)%N with true by (symmetry; apply N.leb_le; lia).
    reflexivity.
Qed.

Lemma lower_digit_us_word c : Chars.lower_digit_us c = true -> Chars.word c = true.
Proof.
  unfold Chars.lower_digit_us, Chars.word.
  destruct (Chars.lower c), (Chars.upper c), (Chars.digit c), (Ascii.eqb c "_");
    simpl; auto.
Qed.

Lemma all_substring0 p s m :
  Str.all p s = true -> Str.all p (String.substring 0 m s) = true.
Proof.
  revert m. induction s as [|c s IH]; intros m; simpl.
  - destruct m; reflexivity.
  - intros [Hc Hs]%andb_true_iff. destruct m; simpl; [reflexivity|].
    rewrite Hc. simpl. auto.
Qed.

Lemma all_string_of_digits ds :
  Forall (fun d => (d < 36)%N) ds ->
  Str.all Chars.lower_digit_us (string_of_digits ds) = true.
Proof.
  induction 1 as [|d ds Hd _ IH]; simpl; [reflexivity|].
  rewrite (digit36_class _ Hd). exact IH.
Qed.

Lemma all_random_part rnd :
  Forall (fun d => (d < 36)%N) rnd ->
  Str.all Chars.lower_digit_us (Str.substr 2 9 (random36 rnd)) = true.
Proof.
  intros H. destruct rnd as [|d ds]; [reflexivity|].
  unfold Str.substr, random36.
  change (String.substring 2 ?m ("0." ++ ?s)) with (String.substring 0 m s).
  apply all_substring0, all_string_of_digits, H.
Qed.

Lemma all_to36 p fuel n acc :
  (forall d, (d < 36)%N -> p (digit36 d) = true) ->
  Str.all p acc = true -> Str.all p (to36 fuel n acc) = true.
Proof.
  intros Hp. revert n acc. induction fuel as [|fuel IH]; intros n acc Hacc; simpl.
  - exact Hacc.
  - assert (Str.all p (String (digit36 (n mod 36)) acc) = true) as Hacc'.
    { simpl. rewrite Hp by (apply N.mod_lt; discriminate). exact Hacc. }
    destruct (n / 36 =? 0)%N; auto.
Qed.

Lemma all_toString36 now : Str.all Chars.lower_digit_us (toString36 now) = true.
Proof. apply all_to36; [apply digit36_class | reflexivity]. Qed.

(** [toString36] writes the numeral of its argument: reading it back gives
    the number, so the fuel of [to36] is enough for every digit. *)
Lemma value36_digit36 d : (d < 36)%N -> value36 (digit36 d) = d.
Proof.
  intros Hd. unfold value36, digit36, Chars.digit, Chars.between, Chars.code.
  destruct (d <? 10)%N eqn:E.
  - apply N.ltb_lt in E. rewrite N_ascii_embedding by lia.
    replace (48 <=? 48 + d)%N with true by (symmetry; apply N.leb_le; lia).
    replace (48 + d <=? 57)%N with true by (symmetry; apply N.leb_le; lia).
    cbn [andb]. lia.
  - apply N.ltb_ge in E. rewrite N_ascii_embedding by lia.
    replace (87 + d <=? 57)%N with false by (symmetry; apply N.leb_gt; lia).
    rewrite andb_false_r. lia.
Qed.

Lemma parse36_to36 fuel : forall n acc,
  (n < 36 ^ N.of_nat fuel)%N -> 0 < fuel ->
  parse36 0 (to36 fuel n acc) = parse36 n acc.
Proof.
  induction fuel as [|fuel IH]; intros n acc Hn Hfuel; [lia|].
  cbn [to36].
  assert (n mod 36 < 36)%N as Hmod by (apply N.mod_lt; discriminate).
  pose proof (N.div_mod n 36 ltac:(discriminate)) as Hdiv.
  destruct (n / 36 =? 0)%N eqn:E.
  - apply N.eqb_eq in E. cbn [parse36].
    rewrite value36_digit36 by exact Hmod. f_equal. lia.
  - apply N.eqb_neq in E.
    rewrite Nat2N.inj_succ, N.pow_succ_r' in Hn.
    destruct fuel as [|fuel].
    { change (N.of_nat 0) with 0%N in Hn. rewrite N.pow_0_r in Hn.
      exfalso. apply E. apply N.div_small. lia. }
    rewrite IH; [| apply N.Div0.div_lt_upper_bound; exact Hn | lia].
    cbn [parse36]. rewrite value36_digit36 by exact Hmod. f_equal. lia.
Qed.

Lemma toString36_parse n : parse36 0 (toString36 n) = n.
Proof.
  unfold toString36. rewrite parse36_to36; [reflexivity | | lia].
  rewrite Nat2N.inj_succ, N2Nat.id.
  destruct n as [|p]; [reflexivity|].
  apply N.lt_le_trans with (2 ^ N.succ (N.log2 (N.pos p)))%N.
  - apply N.log2_spec. reflexivity.
  - apply N.pow_le_mono_l. discriminate.
Qed.

Lemma toString36_inj a b : toString36 a = toString36 b -> a = b.
Proof.
  intros E. rewrite <- (toString36_parse a), <- (toString36_parse b), E.
  reflexivity.
Qed.

(** Ids are a draw and a time written one after the other, so two
    submissions can be given the same id; the properties of runs below are
    stated for runs in which that does not happen. *)
Example generateDownloadId_collision :
  generateDownloadId [10; 2; 28]%N 5 = generateDownloadId [10]%N 3605.
Proof. vm_compute. reflexivity. Qed.

Lemma generateDownloadId_shape rnd now :
  exists rest, generateDownloadId rnd now = "dl_" ++ rest.
Proof. eexists. reflexivity. Qed.

Lemma generateDownloadId_nonempty rnd now : generateDownloadId rnd now <> "".
Proof. discriminate. Qed.

Lemma generateDownloadId_chars rnd now :
  Forall (fun d => (d < 36)%N) rnd ->
  Str.all Chars.lower_digit_us (generateDownloadId rnd now) = true.
Proof.
  intros H. unfold generateDownloadId.
  rewrite !all_app, (all_random_part _ H), all_toString36. reflexivity.
Qed.

Lemma generateDownloadId_not_inherited rnd now :
  generateDownloadId rnd now ∉ object_prototype_names.
Proof.
  unfold generateDownloadId, object_prototype_names.
  intros H. repeat (apply elem_of_cons in H as [H|H]; [discriminate H|]).
  inversion H.
Qed.

(** ** Regular expressions: the matcher decides the language *)

Lemma matches_never_inv s : ~ matches Never s.
Proof. inversion 1. Qed.

Lemma matches_eps_inv s : matches Eps s -> s = "".
Proof. inversion 1. reflexivity. Qed.

Lemma matches_class_inv p s :
  matches (Class p) s -> exists c, s = String c "" /\ p c = true.
Proof. inversion 1; subst. eauto. Qed.

Lemma matches_seq_inv r1 r2 s :
  matches (Seq r1 r2) s ->
  exists s1 s2, s = s1 ++ s2 /\ matches r1 s1 /\ matches r2 s2.
Proof.
  intros H. remember (Seq r1 r2) as r eqn:E.
  destruct H; try discriminate. injection E as -> ->. eauto.
Qed.

Lemma matches_alt_inv r1 r2 s :
  matches (Alt r1 r2) s -> matches r1 s \/ matches r2 s.
Proof.
  intros H. remember (Alt r1 r2) as r eqn:E.
  destruct H; try discriminate; injection E as -> ->; auto.
Qed.

Lemma matches_star_inv r s :
  matches (Star r) s ->
  s = "" \/
  exists c s1 s2,
    s = String c (s1 ++ s2) /\ matches r (String c s1) /\ matches (Star r) s2.
Proof.
  intros H. remember (Star r) as r' eqn:E.
  destruct H; try discriminate; injection E as ->; [auto|].
  right. eauto 6.
Qed.

Lemma append_nil_inv (a b : string) : a ++ b = "" -> a = "" /\ b = "".
Proof. destruct a; [auto | discriminate]. Qed.

Lemma matches_seq' r1 r2 s : matches (seq' r1 r2) s <-> matches (Seq r1 r2) s.
Proof.
  destruct r1; cbn [seq']; try reflexivity.
  - split; intros H.
    + destruct (matches_never_inv _ H).
    + apply matches_seq_inv in H as (s1 & s2 & _ & H & _).
      destruct (matches_never_inv _ H).
  - split; intros H.
    + change s with ("" ++ s). constructor; [constructor | exact H].
    + apply matches_seq_inv in H as (s1 & s2 & -> & H1 & H2).
      apply matches_eps_inv in H1 as ->. exact H2.
Qed.

Lemma matches_alt' r1 r2 s : matches (alt' r1 r2) s <-> matches (Alt r1 r2) s.
Proof.
  split.
  - destruct r1, r2; cbn [alt']; intros H;
      first [ exact H | apply m_alt_l; exact H | apply m_alt_r; exact H ].
  - intros [H|H]%matches_alt_inv.
    + destruct r1, r2; cbn [alt']; try exact H;
        solve [ destruct (matches_never_inv _ H) | apply m_alt_l; exact H ].
    + destruct r1, r2; cbn [alt']; try exact H;
        solve [ destruct (matches_never_inv _ H) | apply m_alt_r; exact H ].
Qed.

Lemma nullable_matches r : nullable r = true <-> matches r "".
Proof.
  induction r as [| |p|r1 IH1 r2 IH2|r1 IH1 r2 IH2|r IH]; cbn [nullable].
  - split; [discriminate | intros H; destruct (matches_never_inv _ H)].
  - split; [constructor | reflexivity].
  - split; [discriminate|].
    intros (c & E & _)%matches_class_inv. discriminate.
  - rewrite andb_true_iff, IH1, IH2. split.
    + intros [H1 H2]. change "" with ("" ++ ""). constructor; assumption.
    + intros (s1 & s2 & E & H1 & H2)%matches_seq_inv.
      symmetry in E. apply append_nil_inv in E as [-> ->]. auto.
  - rewrite orb_true_iff, IH1, IH2. split.
    + intros [H|H]; [apply m_alt_l | apply m_alt_r]; exact H.
    + apply matches_alt_inv.
  - split; [constructor | reflexivity].
Qed.

Lemma deriv_matches c r : forall s, matches (deriv c r) s <-> matches r (String c s).
Proof.
  induction r as [| |p|r1 IH1 r2 IH2|r1 IH1 r2 IH2|r IH]; intros s; cbn [deriv].
  - split; intros H; destruct (matches_never_inv _ H).
  - split; intros H; [destruct (matches_never_inv _ H)|].
    apply matches_eps_inv in H. discriminate.
  - destruct (p c) eqn:P; split; intros H.
    + apply matches_eps_inv in H as ->. constructor. exact P.
    + apply matches_class_inv in H as (c' & [= -> ->] & _). constructor.
    + destruct (matches_never_inv _ H).
    + apply matches_class_inv in H as (c' & [= -> ->] & P'). congruence.
  - rewrite matches_alt'. split; intros H.
    + apply matches_alt_inv in H as [H|H].
      * apply matches_seq', matches_seq_inv in H as (s1 & s2 & -> & Ha & Hb).
        apply IH1 in Ha. change (String c (s1 ++ s2)) with (String c s1 ++ s2).
        constructor; assumption.
      * destruct (nullable r1) eqn:N; [|destruct (matches_never_inv _ H)].
        apply nullable_matches in N. apply IH2 in H.
        change (String c s) with ("" ++ String c s). constructor; assumption.
    + apply matches_seq_inv in H as (s1 & s2 & E & Ha & Hb).
      destruct s1 as [|c1 s1].
      * change ("" ++ s2) with s2 in E. subst s2. apply m_alt_r.
        apply nullable_matches in Ha. rewrite Ha. apply IH2. exact Hb.
      * change (String c1 s1 ++ s2) with (String c1 (s1 ++ s2)) in E.
        injection E as <- ->. apply m_alt_l, matches_seq'.
        constructor; [apply IH1; exact Ha | exact Hb].
  - rewrite matches_alt'. split; intros [H|H]%matches_alt_inv;
      solve [apply m_alt_l, IH1; exact H | apply m_alt_r, IH2; exact H].
  - rewrite matches_seq'. split; intros H.
    + apply matches_seq_inv in H as (s1 & s2 & -> & Ha & Hb).
      apply IH in Ha. change (String c (s1 ++ s2)) with (String c s1 ++ s2).
      constructor; assumption.
    + apply matches_star_inv in H as [E|(c1 & s1 & s2 & E & Ha & Hb)];
        [discriminate|].
      injection E as <- ->.
      constructor; [apply IH; exact Ha | exact Hb].
Qed.

(** [full] decides membership in the language. *)
Lemma full_matches r s : full r s = true <-> matches r s.
Proof.
  revert r. induction s as [|c s IH]; intros r; cbn [full].
  - apply nullable_matches.
  - rewrite IH. apply deriv_matches.
Qed.

(** [here] finds a match that starts at the beginning of the string. *)
Lemma here_matches r s :
  here r s = true <-> exists m rest, s = m ++ rest /\ matches r m.
Proof.
  revert r. induction s as [|c s IH]; intros r; cbn [here].
  - rewrite orb_false_r, nullable_matches. split.
    + intros H. exists "", "". auto.
    + intros (m & rest & E & H). symmetry in E.
      apply append_nil_inv in E as [-> _]. exact H.
  - rewrite orb_true_iff, nullable_matches, IH. split.
    + intros [H|(m & rest & -> & H)].
      * exists "", (String c s). auto.
      * exists (String c m), rest. split; [reflexivity | apply deriv_matches, H].
    + intros (m & rest & E & H). destruct m as [|c1 m]; [left; exact H|].
      change (String c1 m ++ rest) with (String c1 (m ++ rest)) in E.
      injection E as <- ->. right.
      exists m, rest. split; [reflexivity | apply deriv_matches, H].
Qed.

(** [test] finds a match anywhere: some substring is in the language. *)
Lemma test_matches r s :
  test r s = true <->
  exists before m rest, s = before ++ m ++ rest /\ matches r m.
Proof.
  induction s as [|c s IH]; cbn [test].
  - rewrite orb_false_r, here_matches. split.
    + intros (m & rest & E & H). exists "", m, rest. auto.
    + intros (before & m & rest & E & H). symmetry in E.
      apply append_nil_inv in E as [-> E]. eauto.
  - rewrite orb_true_iff, here_matches, IH. split.
    + intros [(m & rest & E & H)|(before & m & rest & -> & H)].
      * exists "", m, rest. auto.
      * exists (String c before), m, rest. auto.
    + intros (before & m & rest & E & H). destruct before as [|c1 before].
      * left. exists m, rest. split; [exact E | exact H].
      * change (String c1 before ++ m ++ rest)
          with (String c1 (before ++ m ++ rest)) in E.
        injection E as <- ->. right. eauto.
Qed.

(** ** The route pattern of the status endpoint *)

Lemma alt'_never_r r : alt' r Never = r.
Proof. destruct r; reflexivity. Qed.

Lemma full_never s : full Never s = false.
Proof. induction s; simpl; auto. Qed.

Lemma full_star_class p s : full (Star (Class p)) s = Str.all p s.
Proof.
  induction s as [|c s IH]; simpl; [reflexivity|].
  destruct (p c); simpl; [exact IH | apply full_never].
Qed.

Lemma full_plus_class p s :
  full (plus (Class p)) s =
  match s with
  | EmptyString => false
  | String _ _ => Str.all p s
  end.
Proof.
  destruct s as [|c s]; simpl; [reflexivity|].
  destruct (p c); simpl; [apply full_star_class | apply full_never].
Qed.

Lemma full_lit_prefix pre r s :
  full (seq' (lit pre) r) s =
  match Str.strip_prefix pre s with
  | Some rest => full r rest
  | None => false
  end.
Proof.
  revert s. induction pre as [|a pre IH]; intros s; [reflexivity|].
  destruct s as [|b s]; [reflexivity|].
  cbn [lit seq' full deriv nullable Str.strip_prefix andb].
  rewrite !alt'_never_r.
  destruct (Ascii.eqb a b); cbn [seq'].
  - apply IH.
  - apply full_never.
Qed.

(** [downloadMatch] finds an id exactly on the paths the pattern
    [^\/api\/download\/([a-zA-Z0-9_]+)$] matches. *)
Lemma downloadMatch_regex path :
  full re_download_route path = bool_decide (is_Some (downloadMatch path)).
Proof.
  change re_download_route
    with (seq' (lit "/api/download/") (plus (Class Chars.word))).
  rewrite full_lit_prefix. unfold downloadMatch.
  destruct (Str.strip_prefix "/api/download/" path) as [rest|]; [|reflexivity].
  rewrite full_plus_class. destruct rest as [|c rest]; [reflexivity|].
  destruct (Str.all Chars.word (String c rest)); reflexivity.
Qed.

(** ** The router, route by route *)

(** The [Origin] header of a request shows in the CORS header of the
    response and in nothing else. *)
Lemma fetch_with_origin now rnd o req s :
  fetch now rnd (with_origin o req) s =
  (fst (fetch now rnd req s),
   mkResponse (code (snd (fetch now rnd req s))) (corsHeaders (Some o))
     (payload (snd (fetch now rnd req s)))).
Proof.
  unfold fetch. cbn [method pathname origin body with_origin].
  repeat match goal with
         | |- context [if ?b then _ else _] => destruct b
         | |- context [match body req with _ => _ end] => destruct (body req)
         | |- context [match downloadMatch ?p with _ => _ end] =>
             destruct (downloadMatch p)
         | |- context [match get_prop ?t ?k with _ => _ end] =>
             destruct (get_prop t k)
         end; reflexivity.
Qed.

Lemma fetch_post_download now rnd url format quality s :
  fetch now rnd (post_download url format quality) s =
  if negb (truthy url) || negb (truthy format) || negb (truthy quality) then
    (s, mkResponse 400 "*" (Failure "URL, format, and quality are required"))
  else if same (detectPlatform (text url)) "Unknown" then
    (s, mkResponse 400 "*" (Failure "Unsupported platform"))
  else
    let downloadId := generateDownloadId rnd now in
    let downloadStatus := mkDownloadStatus downloadId queued 0 None None now None in
    (mkState (<[downloadId := downloadStatus]> (downloadStatuses s))
       (setTimeout now downloadId (text format) after3000 3000
          (setTimeout now downloadId (text format) after2000 2000
             (setTimeout now downloadId (text format) after1000 1000 (timers s))))
       (clock s),
     mkResponse 200 "*" (Created downloadId downloadStatus)).
Proof. reflexivity. Qed.

Lemma fetch_get_status now rnd downloadId s :
  fetch now rnd (get_status downloadId) s =
  match downloadMatch ("/api/download/" ++ downloadId) with
  | Some key =>
      match get_prop (downloadStatuses s) key with
      | None => (s, mkResponse 404 "*" (Failure "Download not found"))
      | Some slot => (s, mkResponse 200 "*" (StatusOf slot))
      end
  | None => (s, mkResponse 404 "*" (NoRoute ("/api/download/" ++ downloadId)))
  end.
Proof.
  unfold fetch, get_status.
  cbn [method pathname origin body same String.eqb Ascii.eqb Bool.eqb andb
       append].
  destruct (downloadMatch _); reflexivity.
Qed.

Lemma fetch_get_file now rnd downloadId s :
  fetch now rnd (get_file downloadId) s =
  (s, mkResponse 404 "*" (NoRoute ("/api/download/" ++ downloadId ++ "/file"))).
Proof.
  unfold fetch, get_file.
  cbn [method pathname origin body same String.eqb Ascii.eqb Bool.eqb andb
       append].
  rewrite downloadMatch_path.
  assert (Str.all Chars.word (downloadId ++ "/file") = false) as A.
  { rewrite all_app. apply andb_false_r. }
  destruct (downloadId ++ "/file")%string; [reflexivity|].
  rewrite A. reflexivity.
Qed.

Lemma fetch_cleanup now rnd downloadId s :
  fetch now rnd (cleanup downloadId) s =
  (s, mkResponse 404 "*" (NoRoute ("/api/download/" ++ downloadId))).
Proof.
  unfold fetch, cleanup.
  cbn [method pathname origin body same String.eqb Ascii.eqb Bool.eqb andb
       append].
  destruct (downloadMatch _); reflexivity.
Qed.

(** ** Timers in the queue *)

Lemma elem_of_schedule t u q : u ∈ schedule t q <-> u = t \/ u ∈ q.
Proof.
  induction q as [|v q IH]; simpl.
  - rewrite list_elem_of_singleton, elem_of_nil. tauto.
  - destruct (t_due v <=? t_due t)%N; rewrite !elem_of_cons; [rewrite IH|];
      tauto.
Qed.

Lemma sample_url_known : known_platform sample_url.
Proof.
  exists "youtube", re_youtube. split; [constructor | vm_compute; reflexivity].
Qed.

(** ** Submitting a download *)

Lemma accepted_post url format quality :
  known_platform url -> truthy format = true -> truthy quality = true ->
  negb (truthy (Some url)) || negb (truthy format) || negb (truthy quality) = false
  /\ same (detectPlatform (text (Some url))) "Unknown" = false.
Proof.
  intros K F Q. split.
  - rewrite F, Q. destruct url; [|reflexivity].
    exfalso. exact (known_platform_nonempty _ K eq_refl).
  - apply same_false, detectPlatform_known, K.
Qed.

(** C1.  A submission whose URL matches a pattern of the platform table and
    whose format and quality pass the required-field test (a non-empty
    string) is answered in the very step that handles it: status 200, a
    non-empty id, the record with status [queued] and progress 0.  That
    record is in the job table under the id, and the three callbacks of the
    simulated extraction are still pending, each due later than [now]. *)
Theorem submit_returns_queued_job
    (s : State) (now : N) (rnd : list N) (url : string)
    (format quality : option string) :
  known_platform url ->
  truthy format = true ->
  truthy quality = true ->
  (clock s <= now)%N ->
  exists downloadId record s',
    step s (Arrive now rnd (post_download (Some url) format quality))
      = Some (s', Some (mkResponse 200 "*" (Created downloadId record)))
    /\ downloadId <> ""
    /\ ds_id record = downloadId
    /\ status_name (ds_status record) = "queued"
    /\ ds_progress record = 0%Z
    /\ downloadStatuses s' !! downloadId = Some record
    /\ forall stage, exists t,
         t ∈ timers s' /\ t_job t = downloadId /\ t_stage t = stage
         /\ (now < t_due t)%N.
Proof.
  intros K F Q Hclock.
  destruct (accepted_post _ _ _ K F Q) as [E1 E2].
  exists (generateDownloadId rnd now),
    (mkDownloadStatus (generateDownloadId rnd now) queued 0 None None now None).
  eexists. unfold step.
  replace (clock s <=? now)%N with true by (symmetry; apply N.leb_le; exact Hclock).
  rewrite fetch_post_download, E1, E2. cbn zeta.
  split; [reflexivity|].
  split; [apply generateDownloadId_nonempty|].
  do 3 (split; [reflexivity|]).
  split; [apply lookup_insert_eq|].
  intros stage. cbn [timers]. unfold setTimeout.
  destruct stage;
    [ exists (mkTimer (now + 1000) (generateDownloadId rnd now) (text format) after1000)
    | exists (mkTimer (now + 2000) (generateDownloadId rnd now) (text format) after2000)
    | exists (mkTimer (now + 3000) (generateDownloadId rnd now) (text format) after3000) ];
    rewrite !elem_of_schedule;
    (split; [tauto | cbn [t_due t_job t_stage]; repeat split; lia]).
Qed.

Lemma submit_returns_queued_job_witness :
  exists downloadId record s',
    step init (Arrive 5 sample_rnd sample_post)
      = Some (s', Some (mkResponse 200 "*" (Created downloadId record)))
    /\ downloadId <> ""
    /\ ds_id record = downloadId
    /\ status_name (ds_status record) = "queued"
    /\ ds_progress record = 0%Z
    /\ downloadStatuses s' !! downloadId = Some record
    /\ forall stage, exists t,
         t ∈ timers s' /\ t_job t = downloadId /\ t_stage t = stage
         /\ (5 < t_due t)%N.
Proof.
  apply (submit_returns_queued_job init 5 sample_rnd sample_url
           (Some "mp4") (Some "720p")).
  - exists "youtube", re_youtube.
    split; [constructor | vm_compute; reflexivity].
  - reflexivity.
  - reflexivity.
  - vm_compute. discriminate.
Defined.

Example submit_sample :
  fetch 5 sample_rnd sample_post init =
  (mkState
     {[ "dl_abc123z075" :=
          mkDownloadStatus "dl_abc123z075" queued 0 None None 5 None ]}
     [ mkTimer 1005 "dl_abc123z075" "mp4" after1000;
       mkTimer 2005 "dl_abc123z075" "mp4" after2000;
       mkTimer 3005 "dl_abc123z075" "mp4" after3000 ]
     0,
   mkResponse 200 "*"
     (Created "dl_abc123z075"
        (mkDownloadStatus "dl_abc123z075" queued 0 None None 5 None))).
Proof. vm_compute. reflexivity. Qed.

(** C4, as the router has it.  A submission is answered 400 and leaves the
    state exactly as it was whenever the URL, the format or the quality is
    missing or empty, or the URL matches no pattern of the platform table.
    The values of format and quality are not looked at beyond that. *)
Theorem submit_rejects_before_mutation
    (s : State) (now : N) (rnd : list N) (url format quality : option string) :
  truthy url = false \/ truthy format = false \/ truthy quality = false
  \/ ~ known_platform (text url) ->
  exists message,
    fetch now rnd (post_download url format quality) s
      = (s, mkResponse 400 "*" (Failure message)).
Proof.
  intros H. rewrite fetch_post_download.
  destruct (negb (truthy url) || negb (truthy format) || negb (truthy quality))
    eqn:E; [eauto|].
  apply orb_false_iff in E as [[E1 E2]%orb_false_iff E3].
  apply negb_false_iff in E1, E2, E3.
  destruct H as [H|[H|[H|H]]]; try congruence.
  destruct (same (detectPlatform (text url)) "Unknown") eqn:U; [eauto|].
  exfalso. apply H, detectPlatform_known, same_false, U.
Qed.

Lemma submit_rejects_before_mutation_witness :
  exists message,
    fetch 5 sample_rnd
      (post_download (Some "https://example.com/video") (Some "mp4") (Some "720p"))
      init
      = (init, mkResponse 400 "*" (Failure message)).
Proof.
  apply submit_rejects_before_mutation.
  right; right; right. intros K%detectPlatform_known. apply K.
  vm_compute. reflexivity.
Defined.

(** C4 as stated fails: ["exe"] and ["9999p"] are among no format values
    the source lists, and the submission is accepted and recorded. *)
Lemma unsupported_format_is_accepted :
  ("exe" ∉ map snd availableFormats)
  /\ ("9999p" ∉ map fst availableFormats)
  /\ fetch 5 sample_rnd
       (post_download (Some sample_url) (Some "exe") (Some "9999p")) init
     = (mkState
          {[ "dl_abc123z075" :=
               mkDownloadStatus "dl_abc123z075" queued 0 None None 5 None ]}
          [ mkTimer 1005 "dl_abc123z075" "exe" after1000;
            mkTimer 2005 "dl_abc123z075" "exe" after2000;
            mkTimer 3005 "dl_abc123z075" "exe" after3000 ]
          0,
        mkResponse 200 "*"
          (Created "dl_abc123z075"
             (mkDownloadStatus "dl_abc123z075" queued 0 None None 5 None))).
Proof.
  split; [|split].
  - intros H. cbn in H.
    repeat (apply elem_of_cons in H as [H|H]; [discriminate H|]). inversion H.
  - intros H. cbn in H.
    repeat (apply elem_of_cons in H as [H|H]; [discriminate H|]). inversion H.
  - vm_compute. reflexivity.
Qed.

(** ** Cleanup *)

(** C6, as the router has it.  [DELETE /api/download/{id}] is no route of
    the worker: for every id, with or without a record, the answer is the
    404 of unmatched routes and the state is left as it was, so that a
    repeated call meets the same state and gets the same answer. *)
Theorem cleanup_is_unrouted
    (s : State) (now now' : N) (rnd rnd' : list N) (downloadId : string) :
  let answer := mkResponse 404 "*" (NoRoute ("/api/download/" ++ downloadId)) in
  fetch now rnd (cleanup downloadId) s = (s, answer)
  /\ fetch now' rnd' (cleanup downloadId) (fst (fetch now rnd (cleanup downloadId) s))
     = (s, answer).
Proof.
  cbn zeta. rewrite !fetch_cleanup. auto.
Qed.

(** C6 as stated fails: cleanup of an existing job is answered 404 and the
    record is still in the table. *)
Lemma cleanup_keeps_record :
  let s := fst (fetch 5 sample_rnd sample_post init) in
  let out := fetch 6 [] (cleanup "dl_abc123z075") s in
  downloadStatuses s !! "dl_abc123z075"
    = Some (mkDownloadStatus "dl_abc123z075" queued 0 None None 5 None)
  /\ code (snd out) = 404
  /\ downloadStatuses (fst out) !! "dl_abc123z075"
     = Some (mkDownloadStatus "dl_abc123z075" queued 0 None None 5 None).
Proof. vm_compute. auto. Qed.

(** ** Unknown ids *)

(** C7 at the failing input.  No job was ever submitted, yet the status of
    the id [constructor] is answered 200: the table lookup finds the member
    of [Object.prototype] of that name. *)
Theorem status_of_inherited_name :
  downloadStatuses init !! "constructor" = None
  /\ fetch 0 [] (get_status "constructor") init
     = (init, mkResponse 200 "*" (StatusOf Inherited)).
Proof. vm_compute. auto. Qed.

(** What does hold for ids without a record: a status request is answered
    404 unless the id names a member of [Object.prototype], a file request
    is always answered 404, and neither changes the state. *)
Lemma unknown_id_not_found s now rnd downloadId :
  downloadStatuses s !! downloadId = None ->
  downloadId ∉ object_prototype_names ->
  (exists p, fetch now rnd (get_status downloadId) s = (s, mkResponse 404 "*" p))
  /\ (exists p, fetch now rnd (get_file downloadId) s = (s, mkResponse 404 "*" p)).
Proof.
  intros Hnone Hproto. split.
  - rewrite fetch_get_status.
    destruct (downloadMatch _) as [key|] eqn:M; [|eauto].
    apply downloadMatch_Some in M as (M & _).
    apply append_inj_l in M as <-.
    unfold get_prop. rewrite Hnone, bool_decide_eq_false_2 by exact Hproto. eauto.
  - rewrite fetch_get_file. eauto.
Qed.

(** ** From submit to the status endpoint *)

Lemma get_prop_own (table : gmap string DownloadStatus) key r :
  table !! key = Some r -> get_prop table key = Some (Own r).
Proof. intros H. unfold get_prop. rewrite H. reflexivity. Qed.

Lemma status_of_stored s now rnd downloadId r :
  downloadMatch ("/api/download/" ++ downloadId) = Some downloadId ->
  downloadStatuses s !! downloadId = Some r ->
  fetch now rnd (get_status downloadId) s
    = (s, mkResponse 200 "*" (StatusOf (Own r))).
Proof.
  intros M H. rewrite fetch_get_status, M, (get_prop_own _ _ _ H). reflexivity.
Qed.

Lemma generated_id_routes rnd now :
  Forall (fun d => (d < 36)%N) rnd ->
  downloadMatch ("/api/download/" ++ generateDownloadId rnd now)
    = Some (generateDownloadId rnd now).
Proof.
  intros H. rewrite downloadMatch_path.
  assert (Str.all Chars.word (generateDownloadId rnd now) = true) as A.
  { eapply all_weaken; [apply lower_digit_us_word|].
    apply generateDownloadId_chars, H. }
  rewrite A. reflexivity.
Qed.

(** C9.  With [Math.random] drawing radix-36 digits, the id of a
    submission starts with [dl_], has only characters of [[a-z0-9_]] and,
    put after [/api/download/], is matched by the route pattern of the
    status endpoint with the id as its group.  So when a submission is
    accepted, a status request for the id it got, at that time or later,
    is answered 200 with the record just stored. *)
Theorem issued_id_round_trip
    (s : State) (now : N) (rnd : list N) (url : string)
    (format quality : option string) :
  Forall (fun d => (d < 36)%N) rnd ->
  known_platform url ->
  truthy format = true ->
  truthy quality = true ->
  (clock s <= now)%N ->
  let downloadId := generateDownloadId rnd now in
  Str.startsWith "dl_" downloadId = true
  /\ Str.all Chars.lower_digit_us downloadId = true
  /\ full re_download_route ("/api/download/" ++ downloadId) = true
  /\ downloadMatch ("/api/download/" ++ downloadId) = Some downloadId
  /\ exists s' record,
       step s (Arrive now rnd (post_download (Some url) format quality))
         = Some (s', Some (mkResponse 200 "*" (Created downloadId record)))
       /\ forall now' rnd', (now <= now')%N ->
            step s' (Arrive now' rnd' (get_status downloadId))
              = Some (tick now' s',
                      Some (mkResponse 200 "*" (StatusOf (Own record)))).
Proof.
  intros Hrnd K F Q Hclock downloadId.
  pose proof (generated_id_routes rnd now Hrnd) as M. fold downloadId in M.
  split; [reflexivity|].
  split; [apply generateDownloadId_chars, Hrnd|].
  split; [rewrite downloadMatch_regex, M; reflexivity|].
  split; [exact M|].
  destruct (accepted_post _ _ _ K F Q) as [E1 E2].
  do 2 eexists. unfold step.
  replace (clock s <=? now)%N with true by (symmetry; apply N.leb_le; exact Hclock).
  rewrite fetch_post_download, E1, E2. cbn zeta. fold downloadId.
  split; [reflexivity|].
  intros now' rnd' Hlater. cbn [clock tick].
  replace (now <=? now')%N with true by (symmetry; apply N.leb_le; exact Hlater).
  erewrite status_of_stored; [reflexivity | exact M |].
  cbn [tick downloadStatuses]. apply lookup_insert_eq.
Qed.

Lemma issued_id_round_trip_witness :
  let downloadId := generateDownloadId sample_rnd 1700000000000 in
  Str.startsWith "dl_" downloadId = true
  /\ Str.all Chars.lower_digit_us downloadId = true
  /\ full re_download_route ("/api/download/" ++ downloadId) = true
  /\ downloadMatch ("/api/download/" ++ downloadId) = Some downloadId
  /\ exists s' record,
       step init (Arrive 1700000000000 sample_rnd sample_post)
         = Some (s', Some (mkResponse 200 "*" (Created downloadId record)))
       /\ forall now' rnd', (1700000000000 <= now')%N ->
            step s' (Arrive now' rnd' (get_status downloadId))
              = Some (tick now' s',
                      Some (mkResponse 200 "*" (StatusOf (Own record)))).
Proof.
  apply (issued_id_round_trip init 1700000000000 sample_rnd sample_url
           (Some "mp4") (Some "720p")).
  - unfold sample_rnd. repeat constructor.
  - exists "youtube", re_youtube.
    split; [constructor | vm_compute; reflexivity].
  - reflexivity.
  - reflexivity.
  - vm_compute. discriminate.
Defined.

Example generateDownloadId_sample :
  generateDownloadId sample_rnd 1700000000000 = "dl_abc123z07loyw3v28".
Proof. vm_compute. reflexivity. Qed.

(** A draw of exactly 0 prints as ["0"], which has nothing from index 2 on. *)
Example generateDownloadId_zero_draw :
  generateDownloadId [] 1700000000000 = "dl_loyw3v28".
Proof. vm_compute. reflexivity. Qed.

(** ** The timer queue *)

Lemma schedule_sorted t q : sorted q -> sorted (schedule t q).
Proof.
  unfold sorted. induction 1 as [|u q Hq IH Hu]; simpl.
  - repeat constructor.
  - destruct (t_due u <=? t_due t)%N eqn:E.
    + apply N.leb_le in E. constructor; [exact IH|].
      apply Forall_forall. intros v [->|Hv]%elem_of_schedule; [exact E|].
      rewrite Forall_forall in Hu. auto.
    + apply N.leb_gt in E. constructor; [constructor; assumption|].
      constructor; [lia|].
      eapply Forall_impl; [exact Hu|]. cbn. intros; lia.
Qed.

Lemma schedule_first t q :
  Forall (fun u => (t_due t < t_due u)%N) q -> schedule t q = t :: q.
Proof.
  destruct 1 as [|u q Hu _]; simpl; [reflexivity|].
  replace (t_due u <=? t_due t)%N with false; [reflexivity|].
  symmetry. apply N.leb_gt. exact Hu.
Qed.

Lemma timers_of_cons downloadId t q :
  timers_of downloadId (t :: q) =
  if decide (t_job t = downloadId) then t :: timers_of downloadId q
  else timers_of downloadId q.
Proof. unfold timers_of. rewrite filter_cons. reflexivity. Qed.

Lemma timers_of_schedule downloadId t q :
  sorted q ->
  timers_of downloadId (schedule t q) =
  if decide (t_job t = downloadId) then schedule t (timers_of downloadId q)
  else timers_of downloadId q.
Proof.
  unfold sorted. induction 1 as [|u q Hq IH Hu].
  - simpl. rewrite timers_of_cons. destruct (decide _); reflexivity.
  - cbn [schedule]. destruct (t_due u <=? t_due t)%N eqn:E.
    + rewrite !timers_of_cons, IH.
      destruct (decide (t_job u = _)), (decide (t_job t = _)); try reflexivity.
      cbn [schedule]. rewrite E. reflexivity.
    + rewrite (timers_of_cons _ t).
      destruct (decide (t_job t = _)); [|reflexivity].
      rewrite schedule_first; [reflexivity|].
      apply N.leb_gt in E. unfold timers_of.
      apply List.Forall_forall. intros v Hv%list_elem_of_In.
      apply list_elem_of_filter in Hv as [_ Hv].
      apply elem_of_cons in Hv as [->|Hv]; [exact E|].
      rewrite Forall_forall in Hu. specialize (Hu _ Hv). cbn in Hu. lia.
Qed.

(** The three timers of a fresh job line up in the order they were set. *)
Lemma timers_of_submission now downloadId format q :
  sorted q ->
  timers_of downloadId q = [] ->
  timers_of downloadId
    (setTimeout now downloadId format after3000 3000
       (setTimeout now downloadId format after2000 2000
          (setTimeout now downloadId format after1000 1000 q)))
  = [ mkTimer (now + 1000) downloadId format after1000;
      mkTimer (now + 2000) downloadId format after2000;
      mkTimer (now + 3000) downloadId format after3000 ].
Proof.
  intros Hq Hnone. unfold setTimeout.
  rewrite !timers_of_schedule by (repeat apply schedule_sorted; exact Hq).
  cbn [t_job]. rewrite !decide_True by reflexivity. rewrite Hnone.
  cbn [schedule t_due].
  replace (now + 1000 <=? now + 2000)%N with true by (symmetry; apply N.leb_le; lia).
  cbn [schedule t_due].
  replace (now + 1000 <=? now + 3000)%N with true by (symmetry; apply N.leb_le; lia).
  replace (now + 2000 <=? now + 3000)%N with true by (symmetry; apply N.leb_le; lia).
  reflexivity.
Qed.

Lemma timers_of_other_submission now downloadId other format q :
  sorted q ->
  downloadId <> other ->
  timers_of other
    (setTimeout now downloadId format after3000 3000
       (setTimeout now downloadId format after2000 2000
          (setTimeout now downloadId format after1000 1000 q)))
  = timers_of other q.
Proof.
  intros Hq Hne. unfold setTimeout.
  rewrite !timers_of_schedule by (repeat apply schedule_sorted; exact Hq).
  cbn [t_job]. rewrite !decide_False by exact Hne. reflexivity.
Qed.

(** ** What a step does to the state *)

(** A request leaves the state alone unless it is an accepted submission. *)
Lemma fetch_cases now rnd req s :
  (fst (fetch now rnd req s) = s
   /\ forall downloadId record, payload (snd (fetch now rnd req s)) <> Created downloadId record)
  \/ exists format,
       let downloadId := generateDownloadId rnd now in
       let record := mkDownloadStatus downloadId queued 0 None None now None in
       fst (fetch now rnd req s) =
         mkState (<[downloadId := record]> (downloadStatuses s))
           (setTimeout now downloadId format after3000 3000
              (setTimeout now downloadId format after2000 2000
                 (setTimeout now downloadId format after1000 1000 (timers s))))
           (clock s)
       /\ payload (snd (fetch now rnd req s)) = Created downloadId record.
Proof.
  unfold fetch.
  repeat match goal with
         | |- context [if ?b then _ else _] => destruct b
         | |- context [match body req with _ => _ end] => destruct (body req)
         | |- context [match downloadMatch ?p with _ => _ end] =>
             destruct (downloadMatch p)
         | |- context [match get_prop ?t ?k with _ => _ end] =>
             destruct (get_prop t k)
         end;
    cbn [fst snd payload];
    try (left; split; [reflexivity | discriminate]).
  all: right; eexists; split; reflexivity.
Qed.

Lemma run_callback_other now t table downloadId :
  t_job t <> downloadId ->
  run_callback now t table !! downloadId = table !! downloadId.
Proof.
  intros Hne. unfold run_callback.
  destruct (get_prop table (t_job t)) as [[r|]|]; try reflexivity.
  apply lookup_insert_ne, Hne.
Qed.

Lemma run_callback_own now t table r :
  table !! t_job t = Some r ->
  run_callback now t table !! t_job t = Some (write_stage now t r).
Proof.
  intros H. unfold run_callback. rewrite (get_prop_own _ _ _ H).
  apply lookup_insert_eq.
Qed.

Lemma sorted_tail t q : sorted (t :: q) -> sorted q.
Proof. unfold sorted. inversion 1; assumption. Qed.

(** What a callback writes is what the remaining callbacks expect. *)
Lemma phase_write now t r stages :
  phase (ds_status r) (ds_progress r) (t_stage t :: stages) ->
  phase (ds_status (write_stage now t r)) (ds_progress (write_stage now t r)) stages
  /\ (ds_progress r <= ds_progress (write_stage now t r))%Z.
Proof.
  unfold write_stage. inversion 1; subst; cbn; split; try constructor; lia.
Qed.

Lemma step_Arrive s now rnd req s' o :
  step s (Arrive now rnd req) = Some (s', o) ->
  (clock s <= now)%N
  /\ s' = fst (fetch now rnd req (tick now s))
  /\ o = Some (snd (fetch now rnd req (tick now s))).
Proof.
  unfold step. destruct (clock s <=? now)%N eqn:E; [|discriminate].
  apply N.leb_le in E. destruct (fetch _ _ _ _). intros [= <- <-]. auto.
Qed.

Lemma step_Fire s now s' o :
  step s (Fire now) = Some (s', o) ->
  exists t q,
    timers s = t :: q /\ (clock s <= now)%N /\ (t_due t <= now)%N
    /\ s' = mkState (run_callback now t (downloadStatuses s)) q now
    /\ o = None.
Proof.
  unfold step. destruct (timers s) as [|t q]; [discriminate|].
  destruct (clock s <=? now)%N eqn:E1; [|discriminate].
  destruct (t_due t <=? now)%N eqn:E2; [|discriminate].
  apply N.leb_le in E1, E2. intros [= <- <-]. eauto 10.
Qed.

Lemma fresh_Arrive s now rnd req :
  (clock s <= now)%N ->
  fresh s (Arrive now rnd req) = true ->
  forall record,
    payload (snd (fetch now rnd req (tick now s)))
      = Created (generateDownloadId rnd now) record ->
    downloadStatuses s !! generateDownloadId rnd now = None.
Proof.
  intros Hclock. unfold fresh, issued, step.
  replace (clock s <=? now)%N with true by (symmetry; apply N.leb_le; exact Hclock).
  destruct (fetch now rnd req (tick now s)) as [s1 r1]. cbn [snd].
  intros F record P. rewrite P in F. apply bool_decide_eq_true in F. exact F.
Qed.

Lemma invariant_init : invariant init.
Proof.
  split.
  - constructor.
  - intros downloadId. cbn. rewrite lookup_empty. reflexivity.
Qed.

Lemma invariant_step s e s' o :
  invariant s -> fresh s e = true -> step s e = Some (s', o) -> invariant s'.
Proof.
  intros [Hsorted Hjobs] Hfresh Hstep. destruct e as [now rnd req | now].
  - apply step_Arrive in Hstep as (Hclock & -> & _).
    pose proof (fresh_Arrive _ _ _ _ Hclock Hfresh) as Hnew.
    destruct (fetch_cases now rnd req (tick now s)) as [[-> _] | (format & E & P)].
    + split; assumption.
    + cbn zeta in E, P. rewrite E. specialize (Hnew _ P).
      cbn [tick downloadStatuses timers] in *.
      split; cbn [timers downloadStatuses].
      * unfold setTimeout. repeat apply schedule_sorted. exact Hsorted.
      * intros downloadId.
        destruct (decide (generateDownloadId rnd now = downloadId)) as [<-|Hne].
        -- rewrite lookup_insert_eq, timers_of_submission; [constructor|assumption|].
           specialize (Hjobs (generateDownloadId rnd now)).
           rewrite Hnew in Hjobs. exact Hjobs.
        -- rewrite lookup_insert_ne, timers_of_other_submission by assumption.
           apply Hjobs.
  - apply step_Fire in Hstep as (t & q & Hq & _ & _ & -> & _).
    rewrite Hq in *. split; cbn [timers downloadStatuses].
    + eapply sorted_tail, Hsorted.
    + intros downloadId. specialize (Hjobs downloadId).
      rewrite timers_of_cons in Hjobs.
      destruct (decide (t_job t = downloadId)) as [<-|Hne].
      * destruct (downloadStatuses s !! t_job t) as [r|] eqn:Hr; [|discriminate].
        rewrite (run_callback_own _ _ _ _ Hr).
        apply phase_write, Hjobs.
      * rewrite run_callback_other by exact Hne. exact Hjobs.
Qed.


(** ** Runs *)

Lemma exec_invariant s es s' :
  invariant s -> unique_ids s es = true -> exec s es = Some s' -> invariant s'.
Proof.
  revert s. induction es as [|e es IH]; intros s Hinv Hu Hx; cbn in *.
  - injection Hx as <-. exact Hinv.
  - apply andb_true_iff in Hu as [Hf Hu].
    destruct (step s e) as [[s1 o]|] eqn:Hstep; [|discriminate].
    apply (IH s1); [eapply invariant_step; eassumption | exact Hu | exact Hx].
Qed.

Lemma reachable_invariant s : reachable s -> invariant s.
Proof.
  intros (es & Hx & Hu). exact (exec_invariant _ _ _ invariant_init Hu Hx).
Qed.



(** ** Progress and terminal states *)



Lemma sample_started_reachable : reachable sample_started.
Proof.
  exists [Arrive 5 sample_rnd sample_post; Fire 1005].
  split; vm_compute; reflexivity.
Qed.

Lemma sample_completed_reachable : reachable sample_completed.
Proof.
  exists [Arrive 5 sample_rnd sample_post; Fire 1005; Fire 2005; Fire 3005].
  split; vm_compute; reflexivity.
Qed.



(** A job's whole life, step by step. *)
Example sample_life :
  exec init [Arrive 5 sample_rnd sample_post; Fire 1005] = Some sample_started
  /\ exec sample_started [Fire 2005; Fire 3005] = Some sample_completed
  /\ exec sample_started [Fire 2004] = None.
Proof. vm_compute. auto. Qed.

(** ** Retention *)

(** C5, as the worker has it.  There is no retention window: however long
    ago a job was created, a status read is answered with the stored
    record as it is, whose status is never [expired], and the state is not
    touched; a file request is answered with the 404 of unmatched routes,
    as it is at any age. *)
Theorem old_job_is_read_as_stored
    (s : State) (now window : N) (rnd : list N) (downloadId : string)
    (r : DownloadStatus) :
  downloadMatch ("/api/download/" ++ downloadId) = Some downloadId ->
  downloadStatuses s !! downloadId = Some r ->
  (ds_createdAt r + window < now)%N ->
  fetch now rnd (get_status downloadId) s
    = (s, mkResponse 200 "*" (StatusOf (Own r)))
  /\ status_name (ds_status r) <> "expired"
  /\ fetch now rnd (get_file downloadId) s
     = (s, mkResponse 404 "*" (NoRoute ("/api/download/" ++ downloadId ++ "/file"))).
Proof.
  intros M Hr _. split; [apply status_of_stored; assumption|].
  split; [destruct (ds_status r); discriminate | apply fetch_get_file].
Qed.

Lemma old_job_is_read_as_stored_witness :
  fetch 1000000000 [] (get_status sample_id) sample_completed
    = (sample_completed,
       mkResponse 200 "*"
         (StatusOf (Own (mkDownloadStatus sample_id completed 100
                           (Some "/files/dl_abc123z075.mp4") None 5 (Some 3005%N)))))
  /\ status_name completed <> "expired"
  /\ fetch 1000000000 [] (get_file sample_id) sample_completed
     = (sample_completed,
        mkResponse 404 "*" (NoRoute ("/api/download/" ++ sample_id ++ "/file"))).
Proof.
  apply (old_job_is_read_as_stored sample_completed 1000000000 one_day []
           sample_id
           (mkDownloadStatus sample_id completed 100
              (Some "/files/dl_abc123z075.mp4") None 5 (Some 3005%N))).
  - vm_compute. reflexivity.
  - vm_compute. reflexivity.
  - vm_compute. reflexivity.
Defined.

(** C5 as stated fails: a job created at time 5 and read more than eleven
    days later, far beyond a day of retention, is reported [completed]; and
    one whose callbacks never ran is reported [queued]. *)
Lemma old_job_not_expired :
  (5 + one_day < 1000000000)%N
  /\ (exists r,
        exec init [Arrive 5 sample_rnd sample_post; Fire 1005; Fire 2005;
                   Fire 3005; Arrive 1000000000 [] (get_status sample_id)]
          = Some (tick 1000000000 sample_completed)
        /\ fetch 1000000000 [] (get_status sample_id) (tick 1000000000 sample_completed)
           = (tick 1000000000 sample_completed,
              mkResponse 200 "*" (StatusOf (Own r)))
        /\ ds_createdAt r = 5%N
        /\ status_name (ds_status r) = "completed")
  /\ (exists r,
        payload (snd (fetch 1000000000 [] (get_status sample_id)
                        (fst (fetch 5 sample_rnd sample_post init))))
          = StatusOf (Own r)
        /\ ds_createdAt r = 5%N
        /\ status_name (ds_status r) = "queued").
Proof.
  split; [vm_compute; reflexivity|]. split.
  - eexists. split; [vm_compute; reflexivity|].
    split; [vm_compute; reflexivity|]. split; reflexivity.
  - eexists. split; [vm_compute; reflexivity|]. split; reflexivity.
Qed.

(** ** The client: [isValidVideoUrl] *)

(** C10.  Whatever the URL parser does on a string, [isValidVideoUrl]
    ends with a boolean and not with a throw; and where the parser throws,
    that boolean is [false]. *)
Theorem isValidVideoUrl_total
    (newURL : string -> Client.completion Client.URL) (url : string) :
  (exists b, Client.isValidVideoUrl newURL url = Client.Normal b)
  /\ (forall e, newURL url = Client.Throw e ->
        Client.isValidVideoUrl newURL url = Client.Normal false).
Proof.
  unfold Client.isValidVideoUrl, Client.try_catch, Client.bind.
  destruct (newURL url) as [urlObj|e]; split; eauto; discriminate.
Qed.

Lemma isValidVideoUrl_total_witness :
  (exists b, Client.isValidVideoUrl Client.httpsURL "not-a-url" = Client.Normal b)
  /\ Client.isValidVideoUrl Client.httpsURL "not-a-url" = Client.Normal false.
Proof.
  destruct (isValidVideoUrl_total Client.httpsURL "not-a-url") as [Hb Hf].
  split; [exact Hb|].
  apply (Hf (Client.TypeError "Invalid URL")). reflexivity.
Defined.

Example isValidVideoUrl_youtube :
  Client.isValidVideoUrl Client.httpsURL "https://www.youtube.com/watch?v=abc12345678"
  = Client.Normal true.
Proof. vm_compute. reflexivity. Qed.

Example isValidVideoUrl_other_site :
  Client.isValidVideoUrl Client.httpsURL "https://example.com/video"
  = Client.Normal false.
Proof. vm_compute. reflexivity. Qed.

(** The test is on substrings of the host name. *)
Example isValidVideoUrl_substring :
  Client.isValidVideoUrl Client.httpsURL "https://notyoutube.com.example.org/"
  = Client.Normal true.
Proof. vm_compute. reflexivity. Qed.

(** ** The client: [pollDownloadStatus] *)

Section PollFacts.

Variable getDownloadStatus : nat -> Client.completion Client.DownloadStatus.
Variable onUpdate : Client.DownloadStatus -> Client.completion unit.
Variable maxAttempts : Z.

Local Abbreviation poll := (Client.poll getDownloadStatus onUpdate maxAttempts).
Local Abbreviation delivered := (Client.delivered getDownloadStatus onUpdate).
Local Abbreviation pending_at := (Client.pending_at getDownloadStatus onUpdate).

Lemma onUpdate_unit s : onUpdate s = Client.Normal tt \/ exists e, onUpdate s = Client.Throw e.
Proof. destruct (onUpdate s) as [[]|e]; eauto. Qed.

(** [onUpdate] is called with exactly the statuses that were read. *)
Lemma poll_updates fuel attempts :
  Client.updates (poll fuel attempts) =
  omap (fun k => match getDownloadStatus k with
                 | Client.Normal s => Some s
                 | Client.Throw _ => None
                 end) (seq (S attempts) (Client.reads (poll fuel attempts))).
Proof.
  revert attempts. induction fuel as [|fuel IH]; intros attempts; [reflexivity|].
  cbn [Client.poll].
  destruct (getDownloadStatus (S attempts)) as [s|e] eqn:G;
    [|cbn; rewrite G; reflexivity].
  destruct (onUpdate s) as [u|e]; [|cbn; rewrite G; reflexivity].
  destruct (Client.terminal (Client.status s)); [cbn; rewrite G; reflexivity|].
  destruct (maxAttempts <=? Z.of_nat (S attempts))%Z; [cbn; rewrite G; reflexivity|].
  cbn. rewrite G, IH. reflexivity.
Qed.

(** With fuel for the attempts that are left, the promise settles. *)
Lemma poll_settles fuel attempts :
  1 <= fuel -> (maxAttempts <= Z.of_nat (attempts + fuel))%Z ->
  Client.outcome (poll fuel attempts) <> None.
Proof.
  revert attempts. induction fuel as [|fuel IH]; intros attempts H1 H2; [lia|].
  cbn [Client.poll].
  destruct (getDownloadStatus (S attempts)) as [s|e]; [|discriminate].
  destruct (onUpdate s) as [u|e]; [|discriminate].
  destruct (Client.terminal (Client.status s)); [discriminate|].
  destruct (maxAttempts <=? Z.of_nat (S attempts))%Z eqn:E; [discriminate|].
  apply Z.leb_gt in E. cbn [Client.outcome]. apply IH; lia.
Qed.

Lemma poll_resolves d : forall fuel attempts s,
  (forall j, attempts < j < attempts + S d -> pending_at j) ->
  delivered (attempts + S d) s ->
  Client.terminal (Client.status s) = true ->
  (d = 0 \/ (Z.of_nat (attempts + d) < maxAttempts)%Z) ->
  d < fuel ->
  Client.outcome (poll fuel attempts) = Some (Client.Resolved s)
  /\ Client.reads (poll fuel attempts) = S d.
Proof.
  induction d as [|d IH]; intros fuel attempts s Hbefore [G U] T Hmax Hfuel;
    (destruct fuel as [|fuel]; [lia|]); cbn [Client.poll].
  - replace (attempts + 1) with (S attempts) in G by lia.
    rewrite G, U, T. auto.
  - destruct (Hbefore (S attempts) ltac:(lia)) as (s' & [G' U'] & T').
    rewrite G', U', T'.
    replace (maxAttempts <=? Z.of_nat (S attempts))%Z with false
      by (symmetry; apply Z.leb_gt; lia).
    cbn [Client.outcome Client.reads].
    assert (delivered (S attempts + S d) s) as Hk
      by (replace (S attempts + S d) with (attempts + S (S d)) by lia;
          split; assumption).
    assert (forall j, S attempts < j < S attempts + S d -> pending_at j) as Hb
      by (intros j Hj; apply Hbefore; lia).
    destruct (IH fuel (S attempts) s Hb Hk T ltac:(lia) ltac:(lia)) as [Ho Hr].
    rewrite Ho, Hr. auto.
Qed.

Lemma poll_times_out fuel : forall attempts,
  1 <= fuel ->
  (maxAttempts <= Z.of_nat (attempts + fuel))%Z ->
  (fuel = 1 \/ (Z.of_nat (attempts + fuel) <= maxAttempts)%Z) ->
  (forall j, attempts < j <= attempts + fuel -> pending_at j) ->
  Client.outcome (poll fuel attempts) = Some (Client.Rejected Client.timeout_error)
  /\ Client.reads (poll fuel attempts) = fuel.
Proof.
  induction fuel as [|fuel IH]; intros attempts H1 Hge Hle Hpending; [lia|].
  cbn [Client.poll].
  destruct (Hpending (S attempts) ltac:(lia)) as (s & [G U] & T).
  rewrite G, U, T.
  destruct (maxAttempts <=? Z.of_nat (S attempts))%Z eqn:E.
  - apply Z.leb_le in E. cbn. split; [reflexivity|]. lia.
  - apply Z.leb_gt in E. cbn [Client.outcome Client.reads].
    assert (forall j, S attempts < j <= S attempts + fuel -> pending_at j) as Hp
      by (intros j Hj; apply Hpending; lia).
    destruct (IH (S attempts) ltac:(lia) ltac:(lia) ltac:(lia) Hp) as [Ho Hr].
    rewrite Ho, Hr. auto.
Qed.

End PollFacts.

(** C8.  A run of the poller, whatever the server answers and whatever
    the callback does:
    - its promise settles;
    - [onUpdate] was called, in order, with exactly the statuses its calls
      of [getDownloadStatus] returned;
    - if call [k], within the attempt bound (the first call always is), is
      the first to return a terminal status, and the callback took every
      status without throwing, the promise resolves with that status and
      call [k] was the last;
    - if the calls up to the attempt bound all return statuses that are not
      terminal, the promise is rejected with the timeout error and no call
      beyond the bound is made. *)
Theorem poller_contract
    (getDownloadStatus : nat -> Client.completion Client.DownloadStatus)
    (onUpdate : Client.DownloadStatus -> Client.completion unit)
    (maxAttempts : Z) :
  let run := Client.pollDownloadStatus getDownloadStatus onUpdate maxAttempts in
  let bound := Z.to_nat (Z.max 1 maxAttempts) in
  Client.outcome run <> None
  /\ Client.updates run = Client.statuses_read getDownloadStatus (Client.reads run)
  /\ (forall k s,
        Client.first_terminal_at getDownloadStatus onUpdate k s ->
        k <= bound ->
        Client.outcome run = Some (Client.Resolved s) /\ Client.reads run = k)
  /\ ((forall j, 1 <= j <= bound -> Client.pending_at getDownloadStatus onUpdate j) ->
      Client.outcome run = Some (Client.Rejected Client.timeout_error)
      /\ Client.reads run = bound).
Proof.
  cbn zeta. unfold Client.pollDownloadStatus.
  split; [apply poll_settles; lia|].
  split; [apply poll_updates|].
  split.
  - intros k s (H1 & Hbefore & Hk & T) Hbound.
    destruct k as [|d]; [lia|].
    apply (poll_resolves _ _ _ d);
      [intros j Hj; apply Hbefore; lia | exact Hk | exact T | lia | lia].
  - intros Hpending.
    apply poll_times_out; [lia | lia | lia |].
    intros j Hj. apply Hpending. lia.
Qed.

Lemma poller_contract_witness :
  (Client.outcome (Client.pollDownloadStatus sample_server quiet 300)
     = Some (Client.Resolved (sample_status 3))
   /\ Client.reads (Client.pollDownloadStatus sample_server quiet 300) = 3)
  /\ (Client.outcome (Client.pollDownloadStatus stuck_server quiet 4)
        = Some (Client.Rejected Client.timeout_error)
      /\ Client.reads (Client.pollDownloadStatus stuck_server quiet 4) = 4).
Proof.
  split.
  - apply (poller_contract sample_server quiet 300).
    + split; [lia|]. split; [|split; [split; reflexivity | reflexivity]].
      intros j Hj. exists (sample_status j). split; [split; reflexivity|].
      assert (j = 1 \/ j = 2) as [->| ->] by lia; reflexivity.
    + vm_compute. lia.
  - apply (poller_contract stuck_server quiet 4).
    intros j Hj. exists (sample_status 1). split; [split; reflexivity | reflexivity].
Defined.

Example poll_sample :
  Client.pollDownloadStatus sample_server quiet 300
  = Client.mkPolled 3 [sample_status 1; sample_status 2; sample_status 3]
      (Some (Client.Resolved (sample_status 3))).
Proof. vm_compute. reflexivity. Qed.

(** A terminal answer on the last attempt still resolves. *)
Example poll_terminal_on_last_attempt :
  Client.outcome (Client.pollDownloadStatus sample_server quiet 3)
  = Some (Client.Resolved (sample_status 3)).
Proof. vm_compute. reflexivity. Qed.

Example poll_times_out_sample :
  Client.pollDownloadStatus sample_server quiet 2
  = Client.mkPolled 2 [sample_status 1; sample_status 2]
      (Some (Client.Rejected Client.timeout_error)).
Proof. vm_compute. reflexivity. Qed.

(** The first call is made even with a bound of 0. *)
Example poll_zero_bound :
  Client.pollDownloadStatus sample_server quiet 0
  = Client.mkPolled 1 [sample_status 1]
      (Some (Client.Rejected Client.timeout_error)).
Proof. vm_compute. reflexivity. Qed.

(* ================================================================== *)
(** * More of the worker *)

(** ** Strings *)

Lemma append_nil_l (s : string) : "" ++ s = s.
Proof. reflexivity. Qed.

Lemma append_cons c (a b : string) : String c a ++ b = String c (a ++ b).
Proof. reflexivity. Qed.

Lemma append_nil_r (s : string) : s ++ "" = s.
Proof.
  induction s as [|c s IH]; [reflexivity|]. rewrite append_cons, IH. reflexivity.
Qed.

Lemma append_assoc (a b c : string) : (a ++ b) ++ c = a ++ (b ++ c).
Proof.
  induction a as [|x a IH]; [reflexivity|]. rewrite !append_cons, IH. reflexivity.
Qed.

Lemma length_append (a b : string) :
  String.length (a ++ b) = String.length a + String.length b.
Proof.
  induction a as [|x a IH]; [reflexivity|].
  rewrite append_cons. cbn [String.length]. rewrite IH. reflexivity.
Qed.

Lemma substring0_append (a b : string) :
  String.substring 0 (String.length a) (a ++ b) = a.
Proof.
  induction a as [|x a IH].
  - destruct b; reflexivity.
  - rewrite append_cons. cbn [String.length String.substring]. rewrite IH.
    reflexivity.
Qed.

Lemma consumed_append (m s' : string) : consumed (m ++ s') s' = m.
Proof.
  unfold consumed. rewrite length_append.
  replace (String.length m + String.length s' - String.length s')
    with (String.length m) by lia.
  apply substring0_append.
Qed.

(** ** The backtracking matcher against the language of the pattern *)

Lemma star_loop_sound (a : pattern) :
  (forall s g k r, run a s g k = Some r ->
     exists m s' g', s = m ++ s' /\ matches (erase a) m /\ k s' g' = Some r
                     /\ (no1 a = true -> group 1 g' = group 1 g)) ->
  forall fuel s g k r,
    star_loop (run a) fuel s g k = Some r ->
    exists m s' g', s = m ++ s' /\ matches (Star (erase a)) m /\ k s' g' = Some r
                    /\ (no1 a = true -> group 1 g' = group 1 g).
Proof.
  intros IHa. induction fuel as [|fuel IH]; intros s g k r H; cbn [star_loop] in H.
  - exists "", s, g. repeat split; auto. constructor.
  - destruct (run a s g _) as [r1|] eqn:B.
    + injection H as ->.
      apply IHa in B as (m1 & s1 & g1 & -> & M1 & K1 & G1).
      destruct (Nat.ltb (String.length s1) (String.length (m1 ++ s1))) eqn:L;
        [|discriminate].
      apply Nat.ltb_lt in L. rewrite length_append in L.
      destruct m1 as [|c m1]; [cbn in L; lia|].
      apply IH in K1 as (m2 & s2 & g2 & -> & M2 & K2 & G2).
      exists (String c m1 ++ m2), s2, g2. split; [symmetry; apply append_assoc|].
      split; [constructor; assumption|]. split; [exact K2|].
      intros N. rewrite G2, G1; auto.
    + exists "", s, g. repeat split; auto. constructor.
Qed.

Lemma run_sound p : forall s g k r,
  run p s g k = Some r ->
  exists m s' g', s = m ++ s' /\ matches (erase p) m /\ k s' g' = Some r
                  /\ (no1 p = true -> group 1 g' = group 1 g).
Proof.
  induction p as [|c|a IHa b IHb|a IHa b IHb|a IHa|n a IHa];
    intros s g k r H; cbn [run erase no1] in *.
  - exists "", s, g. repeat split; auto. constructor.
  - destruct s as [|x s]; [discriminate|].
    destruct (c x) eqn:C; [|discriminate].
    exists (String x ""), s, g. repeat split; auto. constructor. exact C.
  - apply IHa in H as (m1 & s1 & g1 & -> & M1 & K1 & G1).
    apply IHb in K1 as (m2 & s2 & g2 & -> & M2 & K2 & G2).
    exists (m1 ++ m2), s2, g2. split; [symmetry; apply append_assoc|].
    split; [constructor; assumption|]. split; [exact K2|].
    intros [Na Nb]%andb_true_iff. rewrite G2, G1; auto.
  - destruct (run a s g k) as [r1|] eqn:A.
    + injection H as ->. apply IHa in A as (m & s' & g' & E & M & K & G).
      exists m, s', g'. split; [exact E|]. split; [apply m_alt_l, M|].
      split; [exact K|]. intros [Na Nb]%andb_true_iff. auto.
    + apply IHb in H as (m & s' & g' & E & M & K & G).
      exists m, s', g'. split; [exact E|]. split; [apply m_alt_r, M|].
      split; [exact K|]. intros [Na Nb]%andb_true_iff. auto.
  - eapply star_loop_sound; eassumption.
  - apply IHa in H as (m & s' & g' & E & M & K & G).
    exists m, s', ((n, consumed s s') :: g'). split; [exact E|].
    split; [exact M|]. split; [exact K|].
    intros [Nn Na]%andb_true_iff. cbn [group].
    destruct (Nat.eqb n 1); [discriminate|]. auto.
Qed.

(** A group holds what its body matched. *)
Lemma run_group n a s g k r :
  run (PGroup n a) s g k = Some r ->
  exists m s' g', s = m ++ s' /\ matches (erase a) m
                  /\ k s' ((n, m) :: g') = Some r.
Proof.
  cbn [run]. intros H.
  apply run_sound in H as (m & s' & g' & -> & M & K & _).
  rewrite consumed_append in K. eauto 6.
Qed.

Lemma star_loop_complete (a : pattern) :
  (forall s g k m s', s = m ++ s' -> matches (erase a) m ->
     (forall g', is_Some (k s' g')) -> is_Some (run a s g k)) ->
  forall fuel s g k m s',
    String.length s <= fuel -> s = m ++ s' -> matches (Star (erase a)) m ->
    (forall g', is_Some (k s' g')) ->
    is_Some (star_loop (run a) fuel s g k).
Proof.
  intros IHa. induction fuel as [|fuel IH]; intros s g k m s' L E M K.
  - apply matches_star_inv in M as [->|(c & m1 & m2 & -> & _)].
    + cbn [star_loop]. subst s. apply K.
    + subst s. rewrite append_cons in L. cbn in L. lia.
  - cbn [star_loop].
    apply matches_star_inv in M as [->|(c & m1 & m2 & -> & M1 & M2)].
    + destruct (run a s g _); [eauto|]. subst s. apply K.
    + assert (String.length s
              = S (String.length m1 + (String.length m2 + String.length s'))) as Ls.
      { subst s. rewrite append_cons. cbn [String.length].
        rewrite !length_append. lia. }
      assert (is_Some (run a s g
                (fun s1 g1 =>
                   if Nat.ltb (String.length s1) (String.length s)
                   then star_loop (run a) fuel s1 g1 k else None))) as [r R].
      { apply (IHa _ _ _ (String c m1) (m2 ++ s')); [|exact M1|].
        - subst s. rewrite !append_cons, append_assoc. reflexivity.
        - intros g1.
          replace (Nat.ltb (String.length (m2 ++ s')) (String.length s)) with true
            by (symmetry; apply Nat.ltb_lt; rewrite Ls, length_append; lia).
          apply (IH _ _ _ m2 s'); auto.
          rewrite length_append. lia. }
      rewrite R. eauto.
Qed.

Lemma run_complete p : forall s g k m s',
  s = m ++ s' -> matches (erase p) m ->
  (forall g', is_Some (k s' g')) -> is_Some (run p s g k).
Proof.
  induction p as [|c|a IHa b IHb|a IHa b IHb|a IHa|n a IHa];
    intros s g k m s' E M K; cbn [run erase] in *.
  - apply matches_eps_inv in M as ->. subst s. apply K.
  - apply matches_class_inv in M as (x & -> & C). subst s.
    rewrite append_cons, append_nil_l, C. apply K.
  - apply matches_seq_inv in M as (m1 & m2 & -> & M1 & M2).
    apply (IHa _ _ _ m1 (m2 ++ s')); [subst s; apply append_assoc | exact M1 |].
    intros g1. apply (IHb _ _ _ m2 s'); auto.
  - apply matches_alt_inv in M as [M|M].
    + destruct (IHa s g k m s' E M K) as [r R]. rewrite R. eauto.
    + destruct (run a s g k); [eauto|]. apply (IHb s g k m s' E M K).
  - apply (star_loop_complete a IHa _ _ _ _ m s'); auto.
  - apply (IHa _ _ _ m s' E M). intros g1. apply K.
Qed.

(** [search] succeeds exactly where [test] does. *)
Lemma run_here p s g :
  is_Some (run p s g (fun _ g' => Some g')) <-> here (erase p) s = true.
Proof.
  rewrite here_matches. split.
  - intros [r R]. apply run_sound in R as (m & s' & _ & E & M & _). eauto.
  - intros (m & s' & E & M). apply (run_complete p s g _ m s' E M). eauto.
Qed.

Lemma search_test p s : is_Some (search p s) <-> test (erase p) s = true.
Proof.
  induction s as [|x s IH]; cbn [search test].
  - rewrite orb_false_r, <- (run_here p "" []).
    destruct (run p "" [] _); [split; eauto|].
    split; intros [? H]; discriminate.
  - rewrite orb_true_iff, <- (run_here p (String x s) []), <- IH.
    destruct (run p (String x s) [] _); [split; eauto|].
    split; [intros H; right; exact H|].
    intros [[? H]|H]; [discriminate | exact H].
Qed.

Lemma search_None p s : search p s = None <-> test (erase p) s = false.
Proof.
  pose proof (search_test p s) as H.
  destruct (search p s), (test (erase p) s); split; intros E; try reflexivity;
    try discriminate.
  - destruct H as [H _]. discriminate H. eauto.
  - destruct H as [_ [? H]]; [reflexivity | discriminate].
Qed.

(** ** What group 1 holds *)

Lemma keeps1_run p k : no1 p = true -> keeps1 k -> keeps1 (fun s g => run p s g k).
Proof.
  intros N K s g r H.
  apply run_sound in H as (m & s' & g' & _ & _ & H & G).
  rewrite (K _ _ _ H). auto.
Qed.

Lemma keeps1_final : keeps1 (fun _ g => Some g).
Proof. intros s g r [= <-]. reflexivity. Qed.

Lemma spine_group body p : spine body p ->
  forall s g k r, keeps1 k -> run p s g k = Some r ->
  exists v, group 1 r = Some v /\ matches (erase body) v.
Proof.
  induction 1 as [Nb|post Nb Np|a q Na _ IH]; intros s g k r K H.
  - apply run_group in H as (m & s' & g' & _ & M & H).
    exists m. split; [|exact M]. rewrite (K _ _ _ H). reflexivity.
  - cbn [run] in H. change (run (PGroup 1 body) s g (fun s' g' => run post s' g' k) = Some r) in H.
    apply run_group in H as (m & s' & g' & _ & M & H).
    exists m. split; [|exact M].
    rewrite (keeps1_run post k Np K _ _ _ H). reflexivity.
  - cbn [run] in H.
    apply run_sound in H as (m & s' & g' & _ & _ & H & _).
    exact (IH _ _ _ _ K H).
Qed.

Lemma search_group body p s g :
  spine body p -> search p s = Some g ->
  exists v, group 1 g = Some v /\ matches (erase body) v.
Proof.
  intros Sp. induction s as [|x s IH]; cbn [search].
  - destruct (run p "" [] _) eqn:R; [|discriminate].
    intros [= <-]. exact (spine_group _ _ Sp _ _ _ _ keeps1_final R).
  - destruct (run p (String x s) [] _) eqn:R; [|exact IH].
    intros [= <-]. exact (spine_group _ _ Sp _ _ _ _ keeps1_final R).
Qed.

(** ** [extractVideoId] and [detectPlatform] *)

Lemma capturePatterns_erase :
  map (fun p => (fst p, erase (snd p))) capturePatterns = platformPatterns.
Proof. reflexivity. Qed.

Lemma matches_lit s v : matches (lit s) v -> v = s.
Proof.
  revert v. induction s as [|c s IH]; intros v H; cbn [lit] in H.
  - apply matches_eps_inv, H.
  - apply matches_seq_inv in H as (v1 & v2 & -> & H1 & H2).
    apply matches_class_inv in H1 as (x & -> & E%Ascii.eqb_eq). subst x.
    rewrite (IH _ H2). reflexivity.
Qed.

Lemma matches_times_class n p v :
  matches (times n (Class p)) v -> String.length v = n /\ Str.all p v = true.
Proof.
  revert v. induction n as [|n IH]; intros v H; cbn [times] in H.
  - apply matches_eps_inv in H as ->. auto.
  - apply matches_seq_inv in H as (v1 & v2 & -> & H1 & H2).
    apply matches_class_inv in H1 as (x & -> & P).
    destruct (IH _ H2) as [L A].
    rewrite append_cons, append_nil_l. cbn [String.length Str.all].
    rewrite L, P, A. auto.
Qed.

Lemma matches_plus_class p v :
  matches (plus (Class p)) v -> v <> "" /\ Str.all p v = true.
Proof.
  intros H%full_matches. rewrite full_plus_class in H.
  destruct v; [discriminate|]. split; [discriminate | exact H].
Qed.

Lemma spine_youtube : spine (ptimes 11 (PClass Chars.word_dash)) cap_youtube.
Proof. apply spine_after; [reflexivity|]. apply spine_last. reflexivity. Qed.

Lemma spine_tiktok : spine (pplus (PClass Chars.digit)) cap_tiktok.
Proof. repeat (apply spine_after; [reflexivity|]). apply spine_last. reflexivity. Qed.

Lemma spine_instagram : spine (PAlt (plit "p") (plit "reel")) cap_instagram.
Proof. apply spine_after; [reflexivity|]. apply spine_then; reflexivity. Qed.

Lemma spine_twitter : spine (pplus (PClass Chars.digit)) cap_twitter.
Proof. repeat (apply spine_after; [reflexivity|]). apply spine_last. reflexivity. Qed.

Lemma spine_vimeo : spine (pplus (PClass Chars.digit)) cap_vimeo.
Proof. apply spine_after; [reflexivity|]. apply spine_last. reflexivity. Qed.

Lemma spine_facebook : spine (pplus (PClass Chars.digit)) cap_facebook.
Proof. repeat (apply spine_after; [reflexivity|]). apply spine_last. reflexivity. Qed.

Lemma spine_twitch : spine (pplus (PClass Chars.digit)) cap_twitch.
Proof. apply spine_after; [reflexivity|]. apply spine_last. reflexivity. Qed.

(** Every pattern of the table has a group 1 that cannot match the empty
    string. *)
Lemma capturePatterns_spines :
  Forall (fun p => exists body,
            spine body (snd p) /\ nullable (erase body) = false)
         capturePatterns.
Proof.
  repeat constructor; cbn [snd]; eexists;
    (split;
     [ first [ apply spine_youtube | apply spine_tiktok | apply spine_instagram
             | apply spine_twitter | apply spine_vimeo | apply spine_facebook
             | apply spine_twitch ]
     | reflexivity ]).
Qed.

Lemma extract_in_spec cps url :
  Forall (fun p => exists body,
            spine body (snd p) /\ nullable (erase body) = false) cps ->
  match extract_in cps url with
  | Some v => v <> "" /\ Exists (fun p => test (erase (snd p)) url = true) cps
  | None => Forall (fun p => test (erase (snd p)) url = false) cps
  end.
Proof.
  induction 1 as [|[name p] cps (body & Sp & Nn) _ IH]; cbn [extract_in snd].
  - constructor.
  - destruct (search p url) as [g|] eqn:S.
    + destruct (search_group _ _ _ _ Sp S) as (v & -> & M).
      split.
      * intros ->. apply nullable_matches in M. congruence.
      * apply Exists_cons_hd. cbn [snd]. apply search_test. eauto.
    + apply search_None in S.
      destruct (extract_in cps url) as [v|].
      * destruct IH as [Hv He]. split; [exact Hv|]. apply Exists_cons_tl, He.
      * constructor; [exact S | exact IH].
Qed.

(** X1.  [extractVideoId] finds an id exactly for the URLs [detectPlatform]
    knows, and the id it finds is never the empty string: in the
    [/api/video-info] handler the test [!videoId] adds nothing to
    [platform === 'Unknown']. *)
Theorem extractVideoId_iff_known (url : string) :
  (detectPlatform url <> "Unknown" <->
   exists v, extractVideoId url = Some v /\ v <> "")
  /\ (detectPlatform url = "Unknown" <-> extractVideoId url = None).
Proof.
  pose proof (extract_in_spec capturePatterns url capturePatterns_spines) as H.
  fold (extractVideoId url) in H.
  assert (detectPlatform url = "Unknown" <->
          Forall (fun p => test (erase (snd p)) url = false) capturePatterns) as U.
  { unfold detectPlatform. rewrite (detect_in_unknown _ _ platform_names).
    rewrite <- capturePatterns_erase, Forall_map. reflexivity. }
  assert (detectPlatform url = "Unknown" <-> extractVideoId url = None) as N.
  { rewrite U. destruct (extractVideoId url) as [v|].
    - destruct H as [_ He]. split; [|discriminate].
      intros Hf. exfalso. apply Exists_exists in He as (p & Hin & T).
      rewrite Forall_forall in Hf. specialize (Hf _ Hin). cbn in Hf. congruence.
    - split; auto. }
  split; [|exact N].
  rewrite N. destruct (extractVideoId url) as [v|].
  - destruct H as [Hv _]. split; [eauto | discriminate].
  - split; [congruence | intros (v & E & _); discriminate].
Qed.

Lemma detectPlatform_cases url :
  detectPlatform url =
  if test re_youtube url then "Youtube"
  else if test re_tiktok url then "Tiktok"
  else if test re_instagram url then "Instagram"
  else if test re_twitter url then "Twitter"
  else if test re_vimeo url then "Vimeo"
  else if test re_facebook url then "Facebook"
  else if test re_twitch url then "Twitch"
  else "Unknown".
Proof. reflexivity. Qed.

Lemma extractVideoId_cases url :
  extractVideoId url =
  match search cap_youtube url with Some g => group 1 g | None =>
  match search cap_tiktok url with Some g => group 1 g | None =>
  match search cap_instagram url with Some g => group 1 g | None =>
  match search cap_twitter url with Some g => group 1 g | None =>
  match search cap_vimeo url with Some g => group 1 g | None =>
  match search cap_facebook url with Some g => group 1 g | None =>
  match search cap_twitch url with Some g => group 1 g | None => None
  end end end end end end end.
Proof. reflexivity. Qed.

Lemma search_found body p url :
  spine body p -> test (erase p) url = true ->
  exists g v, search p url = Some g /\ group 1 g = Some v
              /\ matches (erase body) v.
Proof.
  intros Sp [g S]%search_test.
  destruct (search_group _ _ _ _ Sp S) as (v & G & M). eauto.
Qed.

Ltac miss cap T :=
  let E := fresh "E" in
  assert (search cap _ = None) as E by (apply search_None; exact T);
  rewrite E; clear E.

(** X2.  For a URL classified as YouTube the extracted id is the eleven
    characters of [[a-zA-Z0-9_-]] that follow [watch?v=] or [youtu.be/]. *)
Theorem extractVideoId_youtube (url : string) :
  detectPlatform url = "Youtube" ->
  exists v, extractVideoId url = Some v
            /\ String.length v = 11
            /\ Str.all Chars.word_dash v = true.
Proof.
  rewrite detectPlatform_cases, extractVideoId_cases.
  destruct (test re_youtube url) eqn:T1;
    [|repeat match goal with |- context [if ?b then _ else _] => destruct b end;
      discriminate].
  intros _.
  destruct (search_found _ _ url spine_youtube T1) as (g & v & -> & -> & M).
  exists v. split; [reflexivity|]. apply (matches_times_class 11 _ _ M).
Qed.

Lemma extractVideoId_youtube_witness :
  exists v, extractVideoId sample_url = Some v
            /\ String.length v = 11
            /\ Str.all Chars.word_dash v = true.
Proof.
  apply extractVideoId_youtube. vm_compute. reflexivity.
Defined.

(** X3.  For a URL classified as Instagram, group 1 of the pattern is the
    kind of link, so the "video id" is ["p"] or ["reel"] and not the code
    of the post. *)
Theorem extractVideoId_instagram (url : string) :
  detectPlatform url = "Instagram" ->
  extractVideoId url = Some "p" \/ extractVideoId url = Some "reel".
Proof.
  rewrite detectPlatform_cases, extractVideoId_cases.
  destruct (test re_youtube url) eqn:T1; [discriminate|].
  destruct (test re_tiktok url) eqn:T2; [discriminate|].
  destruct (test re_instagram url) eqn:T3;
    [|repeat match goal with |- context [if ?b then _ else _] => destruct b end;
      discriminate].
  intros _. miss cap_youtube T1. miss cap_tiktok T2.
  destruct (search_found _ _ url spine_instagram T3) as (g & v & -> & -> & M).
  change (matches (Alt (lit "p") (lit "reel")) v) in M.
  apply matches_alt_inv in M as [M|M]; apply matches_lit in M; subst v; auto.
Qed.

Lemma extractVideoId_instagram_witness :
  extractVideoId "https://www.instagram.com/p/ABC123/" = Some "p"
  \/ extractVideoId "https://www.instagram.com/p/ABC123/" = Some "reel".
Proof.
  apply extractVideoId_instagram. vm_compute. reflexivity.
Defined.

(** X4.  For a URL classified as TikTok, Twitter, Vimeo, Facebook or
    Twitch the extracted id is a non-empty string of decimal digits. *)
Theorem extractVideoId_numeric (url : string) :
  detectPlatform url ∈ ["Tiktok"; "Twitter"; "Vimeo"; "Facebook"; "Twitch"] ->
  exists v, extractVideoId url = Some v
            /\ v <> "" /\ Str.all Chars.digit v = true.
Proof.
  rewrite detectPlatform_cases, extractVideoId_cases.
  intros H.
  assert (forall l : string, l ∈ ["Tiktok"; "Twitter"; "Vimeo"; "Facebook"; "Twitch"] ->
          l <> "Youtube" /\ l <> "Instagram" /\ l <> "Unknown") as Hl.
  { intros l Hin.
    repeat (apply elem_of_cons in Hin as [->|Hin];
            [repeat split; discriminate|]).
    inversion Hin. }
  apply Hl in H as (H1 & H3 & H8). clear Hl.
  destruct (test re_youtube url) eqn:T1; [congruence|]. miss cap_youtube T1.
  destruct (test re_tiktok url) eqn:T2.
  { destruct (search_found _ _ url spine_tiktok T2) as (g & v & -> & -> & M).
    exists v. split; [reflexivity | apply matches_plus_class, M]. }
  miss cap_tiktok T2.
  destruct (test re_instagram url) eqn:T3; [congruence|]. miss cap_instagram T3.
  destruct (test re_twitter url) eqn:T4.
  { destruct (search_found _ _ url spine_twitter T4) as (g & v & -> & -> & M).
    exists v. split; [reflexivity | apply matches_plus_class, M]. }
  miss cap_twitter T4.
  destruct (test re_vimeo url) eqn:T5.
  { destruct (search_found _ _ url spine_vimeo T5) as (g & v & -> & -> & M).
    exists v. split; [reflexivity | apply matches_plus_class, M]. }
  miss cap_vimeo T5.
  destruct (test re_facebook url) eqn:T6.
  { destruct (search_found _ _ url spine_facebook T6) as (g & v & -> & -> & M).
    exists v. split; [reflexivity | apply matches_plus_class, M]. }
  miss cap_facebook T6.
  destruct (test re_twitch url) eqn:T7; [|congruence].
  destruct (search_found _ _ url spine_twitch T7) as (g & v & -> & -> & M).
  exists v. split; [reflexivity | apply matches_plus_class, M].
Qed.

Lemma extractVideoId_numeric_witness :
  exists v, extractVideoId "https://vimeo.com/123456789" = Some v
            /\ v <> "" /\ Str.all Chars.digit v = true.
Proof.
  apply extractVideoId_numeric. vm_compute.
  do 2 apply list_elem_of_further. apply list_elem_of_here.
Defined.

Example extractVideoId_greedy :
  extractVideoId "https://www.facebook.com/a/videos/1/videos/22" = Some "22"
  /\ extractVideoId "https://vimeo.com/12a vimeo.com/777" = Some "12"
  /\ extractVideoId "https://www.instagram.com/reel/Cxyz_12/" = Some "reel"
  /\ extractVideoId "https://example.com/video" = None.
Proof. vm_compute. auto. Qed.

(** ** Detection is by substring *)

Lemma test_append r a url b : test r url = true -> test r (a ++ url ++ b) = true.
Proof.
  rewrite !test_matches. intros (x & m & y & -> & M).
  exists (a ++ x), m, (y ++ b). split; [|exact M].
  rewrite !append_assoc. reflexivity.
Qed.

(** X5.  [detectPlatform] looks for a match anywhere in its argument: a
    string that contains a recognised URL, with anything before and after
    it, is recognised too (as that platform or as one earlier in the
    table). *)
Theorem detectPlatform_substring (a url b : string) :
  detectPlatform url <> "Unknown" ->
  detectPlatform (a ++ url ++ b) <> "Unknown".
Proof.
  rewrite <- !detectPlatform_known.
  intros (name & pattern & Hin & T).
  exists name, pattern. split; [exact Hin | apply test_append, T].
Qed.

Lemma detectPlatform_substring_witness :
  detectPlatform ("javascript:alert(1)//" ++ sample_url ++ "&x=<script>")
  <> "Unknown".
Proof.
  apply detectPlatform_substring. vm_compute. discriminate.
Defined.

(** ** The worker's detection and the page's *)

Lemma startsWith_append d y : Str.startsWith d (d ++ y) = true.
Proof. unfold Str.startsWith. rewrite strip_prefix_app. reflexivity. Qed.

Lemma includes_append d x y : Str.includes d (x ++ d ++ y) = true.
Proof.
  induction x as [|c x IH].
  - rewrite append_nil_l. destruct (d ++ y) eqn:E; cbn [Str.includes];
      rewrite <- E, startsWith_append; reflexivity.
  - rewrite append_cons. cbn [Str.includes]. rewrite IH. apply orb_true_r.
Qed.

Lemma includes_spec d s :
  Str.includes d s = true <-> exists x y, s = x ++ d ++ y.
Proof.
  split.
  - induction s as [|c s IH]; cbn [Str.includes].
    + rewrite orb_false_r. unfold Str.startsWith.
      destruct (Str.strip_prefix d "") as [rest|] eqn:E; [|discriminate].
      intros _. apply strip_prefix_Some in E. exists "", rest. exact E.
    + intros [H|H]%orb_true_iff.
      * unfold Str.startsWith in H.
        destruct (Str.strip_prefix d (String c s)) as [rest|] eqn:E; [|discriminate].
        apply strip_prefix_Some in E. exists "", rest. exact E.
      * destruct (IH H) as (x & y & ->). exists (String c x), y. reflexivity.
  - intros (x & y & ->). apply includes_append.
Qed.

(** A match of a pattern that begins with a literal contains the literal. *)
Lemma test_lit_includes d r url :
  test (Seq (lit d) r) url = true -> Str.includes d url = true.
Proof.
  rewrite test_matches. intros (x & m & y & -> & M).
  apply matches_seq_inv in M as (m1 & m2 & -> & M1%matches_lit & _). subst m1.
  apply includes_spec. exists x, (m2 ++ y). rewrite append_assoc. reflexivity.
Qed.

Lemma test_alt_lit_includes d1 d2 r url :
  test (Seq (Alt (lit d1) (lit d2)) r) url = true ->
  Str.includes d1 url = true \/ Str.includes d2 url = true.
Proof.
  rewrite test_matches. intros (x & m & y & -> & M).
  apply matches_seq_inv in M as (m1 & m2 & -> & M1 & _).
  apply matches_alt_inv in M1 as [M1%matches_lit|M1%matches_lit]; subst m1;
    [left|right]; apply includes_spec; exists x, (m2 ++ y);
    rewrite append_assoc; reflexivity.
Qed.

Lemma includes_shorter d e url :
  Str.includes (d ++ e) url = true -> Str.includes d url = true.
Proof.
  rewrite !includes_spec. intros (x & y & ->).
  exists x, (e ++ y). rewrite append_assoc. reflexivity.
Qed.

(** X6.  Every URL the worker's [detectPlatform] recognises is recognised
    by the page's [detectPlatform] as well: the page never shows
    ["Unknown"] for a URL the worker accepts. *)
Theorem page_knows_what_worker_knows (url : string) :
  detectPlatform url <> "Unknown" -> App.detectPlatform url <> "Unknown".
Proof.
  intros K.
  assert (url <> "") as Hne
    by (apply known_platform_nonempty, detectPlatform_known, K).
  rewrite detectPlatform_cases in K.
  assert (Str.includes "youtube.com" url = true
          \/ Str.includes "youtu.be" url = true
          \/ Str.includes "tiktok.com" url = true
          \/ Str.includes "instagram.com" url = true
          \/ Str.includes "twitter.com" url = true
          \/ Str.includes "x.com" url = true
          \/ Str.includes "vimeo.com" url = true
          \/ Str.includes "facebook.com" url = true
          \/ Str.includes "twitch.tv" url = true) as H.
  { destruct (test re_youtube url) eqn:T1.
    { apply test_alt_lit_includes in T1 as [T|T].
      - left. apply (includes_shorter "youtube.com" "/watch?v="), T.
      - right; left. apply (includes_shorter "youtu.be" "/"), T. }
    destruct (test re_tiktok url) eqn:T2.
    { do 2 right; left.
      apply test_lit_includes in T2. apply (includes_shorter "tiktok.com" "/@"), T2. }
    destruct (test re_instagram url) eqn:T3.
    { do 3 right; left.
      apply test_lit_includes in T3.
      apply (includes_shorter "instagram.com" "/"), T3. }
    destruct (test re_twitter url) eqn:T4.
    { apply test_alt_lit_includes in T4 as [T|T];
        [do 4 right; left | do 5 right; left]; exact T. }
    destruct (test re_vimeo url) eqn:T5.
    { do 6 right; left.
      apply test_lit_includes in T5. apply (includes_shorter "vimeo.com" "/"), T5. }
    destruct (test re_facebook url) eqn:T6.
    { do 7 right; left.
      apply test_lit_includes in T6.
      apply (includes_shorter "facebook.com" "/"), T6. }
    destruct (test re_twitch url) eqn:T7; [|congruence].
    do 8 right.
    apply test_lit_includes in T7.
    apply (includes_shorter "twitch.tv" "/videos/"), T7. }
  unfold App.detectPlatform.
  destruct url as [|c url]; [congruence|]. cbn [truthy negb].
  repeat match goal with
         | |- context [Str.includes ?d ?u] =>
             let E := fresh "E" in
             destruct (Str.includes d u) eqn:E; cbn [orb]; try discriminate
         end.
  intuition discriminate.
Qed.

Lemma page_knows_what_worker_knows_witness :
  App.detectPlatform sample_url <> "Unknown".
Proof.
  apply page_knows_what_worker_knows. vm_compute. discriminate.
Defined.

(** ** What changes the state *)

(** X7.  The state (job table and timers) is changed by nothing but an
    accepted submission: a request with another method or path, or one
    that is answered with a code other than 200, leaves the state exactly
    as it was. *)
Theorem only_accepted_submission_mutates
    (now : N) (rnd : list N) (req : Request) (s : State) :
  method req <> "POST" \/ pathname req <> "/api/download"
  \/ code (snd (fetch now rnd req s)) <> 200 ->
  fst (fetch now rnd req s) = s.
Proof.
  intros H. unfold fetch in *.
  repeat match goal with
         | |- context [if ?b then _ else _] =>
             let E := fresh "E" in destruct b eqn:E
         | |- context [match body req with _ => _ end] => destruct (body req)
         | |- context [match downloadMatch ?p with _ => _ end] =>
             destruct (downloadMatch p)
         | |- context [match get_prop ?t ?k with _ => _ end] =>
             destruct (get_prop t k)
         end;
    try reflexivity.
  all: exfalso; cbn [snd code] in H;
    repeat match goal with
           | E : _ && _ = true |- _ => apply andb_true_iff in E as [? ?]
           end;
    repeat match goal with
           | E : same _ _ = true |- _ => apply same_true in E
           end;
    destruct H as [H|[H|H]]; congruence.
Qed.

Lemma only_accepted_submission_mutates_witness :
  fst (fetch 5 sample_rnd (post_download (Some sample_url) None (Some "720p")) init)
  = init.
Proof.
  apply only_accepted_submission_mutates.
  right; right. vm_compute. discriminate.
Defined.

(** X8.  The [Origin] header of a request decides the
    [Access-Control-Allow-Origin] header of the response, which repeats
    it, and nothing else: the state after the request, the status code
    and the body are those of the same request without the header. *)
Theorem origin_only_sets_cors_header
    (now : N) (rnd : list N) (o : string) (req : Request) (s : State) :
  let plain := fetch now rnd req s in
  let tagged := fetch now rnd (with_origin o req) s in
  fst tagged = fst plain
  /\ code (snd tagged) = code (snd plain)
  /\ payload (snd tagged) = payload (snd plain)
  /\ allowOrigin (snd tagged) = (if same o "" then "*" else o).
Proof.
  cbn zeta. rewrite fetch_with_origin. cbn [fst snd code payload allowOrigin].
  repeat split. destruct o; reflexivity.
Qed.

(** ** Records stay *)

Lemma step_keeps_records s e s' o key :
  step s e = Some (s', o) ->
  is_Some (downloadStatuses s !! key) -> is_Some (downloadStatuses s' !! key).
Proof.
  intros Hstep [r Hr]. destruct e as [now rnd req | now].
  - apply step_Arrive in Hstep as (_ & -> & _).
    destruct (fetch_cases now rnd req (tick now s)) as [[-> _] | (format & E & _)].
    + cbn [tick downloadStatuses]. eauto.
    + cbn zeta in E. rewrite E. cbn [tick downloadStatuses].
      destruct (decide (generateDownloadId rnd now = key)) as [<-|Hne].
      * rewrite lookup_insert_eq. eauto.
      * rewrite lookup_insert_ne by exact Hne. eauto.
  - apply step_Fire in Hstep as (t & q & _ & _ & _ & -> & _).
    cbn [downloadStatuses].
    destruct (decide (t_job t = key)) as [<-|Hne].
    + rewrite (run_callback_own _ _ _ _ Hr). eauto.
    + rewrite run_callback_other by exact Hne. eauto.
Qed.

(** X9.  No step of the worker removes a record: along every run, also
    one in which ids repeat, the keys of the job table only grow. *)
Theorem records_are_never_removed (s s' : State) (es : list Event) :
  exec s es = Some s' ->
  dom (downloadStatuses s) ⊆ dom (downloadStatuses s').
Proof.
  revert s. induction es as [|e es IH]; intros s Hx; cbn [exec] in Hx.
  - injection Hx as <-. reflexivity.
  - destruct (step s e) as [[s1 o]|] eqn:Hstep; [|discriminate].
    etransitivity; [|apply (IH s1 Hx)].
    intros key Hk. apply elem_of_dom. apply elem_of_dom in Hk.
    exact (step_keeps_records _ _ _ _ _ Hstep Hk).
Qed.

Lemma records_are_never_removed_witness :
  dom (downloadStatuses sample_started) ⊆ dom (downloadStatuses sample_completed).
Proof.
  apply (records_are_never_removed _ _ [Fire 2005; Fire 3005]).
  vm_compute. reflexivity.
Defined.

(** ** What a record can show *)

Lemma written_pair_write now t r : written_pair (write_stage now t r).
Proof.
  unfold written_pair, write_stage. destruct (t_stage t); cbn; tauto.
Qed.

Lemma step_written s e s' o :
  (forall key r, downloadStatuses s !! key = Some r ->
     ds_id r = key /\ ds_error r = None /\ written_pair r) ->
  step s e = Some (s', o) ->
  forall key r, downloadStatuses s' !! key = Some r ->
    ds_id r = key /\ ds_error r = None /\ written_pair r.
Proof.
  intros P Hstep key r Hr. destruct e as [now rnd req | now].
  - apply step_Arrive in Hstep as (_ & -> & _).
    destruct (fetch_cases now rnd req (tick now s)) as [[E _] | (format & E & _)].
    + rewrite E in Hr. apply P, Hr.
    + cbn zeta in E. rewrite E in Hr. cbn [tick downloadStatuses] in Hr.
      destruct (decide (generateDownloadId rnd now = key)) as [<-|Hne].
      * rewrite lookup_insert_eq in Hr. injection Hr as <-.
        cbn. unfold written_pair. cbn. tauto.
      * rewrite lookup_insert_ne in Hr by exact Hne. apply P, Hr.
  - apply step_Fire in Hstep as (t & q & _ & _ & _ & -> & _).
    cbn [downloadStatuses] in Hr.
    destruct (decide (t_job t = key)) as [<-|Hne].
    + unfold run_callback, get_prop in Hr.
      destruct (downloadStatuses s !! t_job t) as [r0|] eqn:Hr0.
      * rewrite lookup_insert_eq in Hr. injection Hr as <-.
        destruct (P _ _ Hr0) as (I & Er & _).
        split; [|split; [|apply written_pair_write]];
          unfold write_stage; destruct (t_stage t); cbn; assumption.
      * destruct (bool_decide _); rewrite Hr0 in Hr; discriminate.
    + rewrite run_callback_other in Hr by exact Hne. apply P, Hr.
Qed.

(** X10.  In every run from the empty table, also one in which ids
    repeat: a record is stored under its own id, has no error text, and
    shows one of four pairs of status and progress: queued with 0,
    processing with 25 or 75, completed with 100.  The status [error] is
    never written. *)
Theorem records_show_written_pairs
    (es : list Event) (s : State) (key : string) (r : DownloadStatus) :
  exec init es = Some s ->
  downloadStatuses s !! key = Some r ->
  ds_id r = key /\ ds_error r = None /\ written_pair r
  /\ ds_status r <> error.
Proof.
  intros Hx Hr.
  assert (forall s0 s1, exec s0 es = Some s1 ->
            (forall key r, downloadStatuses s0 !! key = Some r ->
               ds_id r = key /\ ds_error r = None /\ written_pair r) ->
            forall key r, downloadStatuses s1 !! key = Some r ->
              ds_id r = key /\ ds_error r = None /\ written_pair r) as G.
  { clear. induction es as [|e es IH]; intros s0 s1 Hx P; cbn [exec] in Hx.
    - injection Hx as <-. exact P.
    - destruct (step s0 e) as [[s2 o]|] eqn:Hstep; [|discriminate].
      apply (IH s2 s1 Hx). exact (step_written _ _ _ _ P Hstep). }
  destruct (G init s Hx) with (key := key) (r := r) as (I & E & W); [|exact Hr|].
  - intros k r0 H0. cbn in H0. rewrite lookup_empty in H0. discriminate.
  - repeat split; try assumption.
    destruct W as [[W _]|[[W _]|[[W _]|[W _]]]]; rewrite W; discriminate.
Qed.

Lemma records_show_written_pairs_witness :
  ds_id (mkDownloadStatus sample_id processing 25 None None 5 None) = sample_id
  /\ ds_error (mkDownloadStatus sample_id processing 25 None None 5 None) = None
  /\ written_pair (mkDownloadStatus sample_id processing 25 None None 5 None)
  /\ ds_status (mkDownloadStatus sample_id processing 25 None None 5 None) <> error.
Proof.
  apply (records_show_written_pairs
           [Arrive 5 sample_rnd sample_post; Fire 1005] sample_started sample_id).
  - vm_compute. reflexivity.
  - vm_compute. reflexivity.
Defined.

(** ** Fields and times of a record *)












(** ** Every job completes *)

Lemma fresh_Fire s now : fresh s (Fire now) = true.
Proof.
  unfold fresh, issued, step.
  destruct (timers s) as [|t q]; [reflexivity|].
  destruct (_ && _); reflexivity.
Qed.

Lemma drain_exec now : forall n s,
  invariant s -> List.length (timers s) = n ->
  (clock s <= now)%N ->
  (forall t, t ∈ timers s -> (t_due t <= now)%N) ->
  exists s', exec s (replicate n (Fire now)) = Some s'
             /\ invariant s' /\ timers s' = []
             /\ dom (downloadStatuses s') = dom (downloadStatuses s).
Proof.
  induction n as [|n IH]; intros s Hinv Hlen Hclock Hdue.
  - exists s. cbn. destruct (timers s); [auto | discriminate].
  - destruct (timers s) as [|t q] eqn:Hq; [discriminate|].
    assert (step s (Fire now)
            = Some (mkState (run_callback now t (downloadStatuses s)) q now, None))
      as Hstep.
    { unfold step. rewrite Hq.
      replace (clock s <=? now)%N with true by (symmetry; apply N.leb_le; exact Hclock).
      replace (t_due t <=? now)%N with true
        by (symmetry; apply N.leb_le, Hdue; left).
      reflexivity. }
    pose proof (invariant_step _ _ _ _ Hinv (fresh_Fire s now) Hstep) as Hinv'.
    destruct (IH _ Hinv') as (s' & Hx & Hi & Ht & Hd).
    + cbn [timers]. cbn in Hlen. lia.
    + cbn [clock]. lia.
    + cbn [timers]. intros u Hu. apply Hdue. right. exact Hu.
    + exists s'. cbn [replicate exec]. rewrite Hstep.
      split; [exact Hx|]. split; [exact Hi|]. split; [exact Ht|].
      rewrite Hd. cbn [downloadStatuses].
      pose proof (inv_jobs _ Hinv (t_job t)) as Hphase.
      rewrite Hq, timers_of_cons, decide_True in Hphase by reflexivity.
      destruct (downloadStatuses s !! t_job t) as [r0|] eqn:Hr0; [|discriminate].
      unfold run_callback. rewrite (get_prop_own _ _ _ Hr0).
      apply set_eq. intros k. rewrite !elem_of_dom.
      destruct (decide (t_job t = k)) as [<-|Hne].
      * rewrite lookup_insert_eq, Hr0. split; eauto.
      * rewrite lookup_insert_ne by exact Hne. reflexivity.
Qed.

(** X13.  Every accepted job completes once its timers have run: from a
    state of a run without repeated ids, letting all pending timers run
    (at a time by which they are due) is possible, empties the timer
    queue, keeps every record, and leaves every record completed at
    progress 100. *)
Theorem every_job_completes (s : State) (now : N) :
  reachable s ->
  (clock s <= now)%N ->
  (forall t, t ∈ timers s -> (t_due t <= now)%N) ->
  exists s',
    exec s (drain now s) = Some s'
    /\ timers s' = []
    /\ dom (downloadStatuses s') = dom (downloadStatuses s)
    /\ forall key r, downloadStatuses s' !! key = Some r ->
         ds_status r = completed /\ ds_progress r = 100%Z.
Proof.
  intros Hreach Hclock Hdue.
  destruct (drain_exec now _ s (reachable_invariant _ Hreach) eq_refl Hclock Hdue)
    as (s' & Hx & Hinv & Ht & Hd).
  exists s'. split; [exact Hx|]. split; [exact Ht|]. split; [exact Hd|].
  intros key r Hr. pose proof (inv_jobs _ Hinv key) as Hphase.
  rewrite Hr, Ht in Hphase. cbn in Hphase. inversion Hphase. auto.
Qed.

Lemma every_job_completes_witness :
  exists s',
    exec sample_started (drain 3005 sample_started) = Some s'
    /\ timers s' = []
    /\ dom (downloadStatuses s') = dom (downloadStatuses sample_started)
    /\ forall key r, downloadStatuses s' !! key = Some r ->
         ds_status r = completed /\ ds_progress r = 100%Z.
Proof.
  apply every_job_completes.
  - exists [Arrive 5 sample_rnd sample_post; Fire 1005].
    split; vm_compute; reflexivity.
  - vm_compute. discriminate.
  - intros t Ht. cbn in Ht.
    apply elem_of_cons in Ht as [->|Ht]; [vm_compute; discriminate|].
    apply elem_of_cons in Ht as [->|Ht]; [vm_compute; discriminate|].
    inversion Ht.
Defined.

(** ** Ids in the present epoch *)

Lemma length_to36 k : forall fuel n acc,
  (36 ^ N.of_nat k <= n)%N -> (n < 36 ^ N.of_nat (S k))%N -> k < fuel ->
  String.length (to36 fuel n acc) = S k + String.length acc.
Proof.
  induction k as [|k IH]; intros fuel n acc Hlo Hhi Hfuel;
    (destruct fuel as [|fuel]; [lia|]); cbn [to36].
  - change (N.of_nat 1) with 1%N in Hhi. rewrite N.pow_1_r in Hhi.
    rewrite (N.div_small n 36 Hhi). reflexivity.
  - rewrite Nat2N.inj_succ, N.pow_succ_r' in Hlo, Hhi.
    assert (36 ^ N.of_nat k <= n / 36)%N as Hlo'.
    { apply N.div_le_lower_bound; [discriminate | exact Hlo]. }
    assert (n / 36 < 36 ^ N.of_nat (S k))%N as Hhi'.
    { apply N.Div0.div_lt_upper_bound. exact Hhi. }
    assert (n / 36 <> 0)%N as Hnz.
    { assert (0 < 36 ^ N.of_nat k)%N
        by (apply N.neq_0_lt_0, N.pow_nonzero; discriminate).
      lia. }
    apply N.eqb_neq in Hnz. rewrite Hnz.
    rewrite (IH fuel (n / 36)%N _ Hlo' Hhi' ltac:(lia)).
    cbn [String.length]. lia.
Qed.

Lemma length_toString36 k n :
  (36 ^ N.of_nat k <= n)%N -> (n < 36 ^ N.of_nat (S k))%N ->
  String.length (toString36 n) = S k.
Proof.
  intros Hlo Hhi. unfold toString36.
  rewrite (length_to36 k); [cbn [String.length]; lia | exact Hlo | exact Hhi |].
  assert (N.of_nat k <= N.log2 n)%N; [|lia].
  apply N.log2_le_pow2.
  - assert (0 < 36 ^ N.of_nat k)%N
      by (apply N.neq_0_lt_0, N.pow_nonzero; discriminate).
    lia.
  - apply N.le_trans with (36 ^ N.of_nat k)%N; [|exact Hlo].
    apply N.pow_le_mono_l. discriminate.
Qed.

Lemma append_inj_length (x1 y1 x2 y2 : string) :
  x1 ++ y1 = x2 ++ y2 -> String.length y1 = String.length y2 ->
  x1 = x2 /\ y1 = y2.
Proof.
  revert x2. induction x1 as [|c x1 IH]; intros x2 E L.
  - destruct x2 as [|d x2]; [auto|].
    rewrite append_nil_l in E. subst y1.
    rewrite append_cons in L. cbn [String.length] in L.
    rewrite length_append in L. lia.
  - destruct x2 as [|d x2].
    + rewrite append_nil_l in E. subst y2.
      rewrite append_cons in L. cbn [String.length] in L.
      rewrite length_append in L. lia.
    + rewrite !append_cons in E. injection E as <- E.
      destruct (IH _ E L) as [<- <-]. auto.
Qed.

Lemma length_substring n m s : String.length (String.substring n m s) <= m.
Proof.
  revert n m. induction s as [|c s IH]; intros n m.
  - destruct n, m; cbn; lia.
  - destruct n as [|n].
    + destruct m as [|m]; cbn [String.substring String.length]; [lia|].
      specialize (IH 0 m). lia.
    + cbn [String.substring]. apply IH.
Qed.

(** X14.  For times from 36^7 ms to 36^8 ms after the epoch (June 1972 to
    May 2059) the time is written with eight digits, so two submissions
    get the same id only in the same millisecond and with the same random
    part; and an id has between 11 and 20 characters. *)
Theorem ids_of_this_epoch (r1 r2 : list N) (a b : N) :
  (78364164096 <= a < 2821109907456)%N ->
  (78364164096 <= b < 2821109907456)%N ->
  (generateDownloadId r1 a = generateDownloadId r2 b ->
   a = b /\ Str.substr 2 9 (random36 r1) = Str.substr 2 9 (random36 r2))
  /\ 11 <= String.length (generateDownloadId r1 a) <= 20.
Proof.
  intros [Ha1 Ha2] [Hb1 Hb2].
  assert (String.length (toString36 a) = 8) as La
    by (apply (length_toString36 7); assumption).
  assert (String.length (toString36 b) = 8) as Lb
    by (apply (length_toString36 7); assumption).
  split.
  - unfold generateDownloadId. intros E%append_inj_l.
    apply append_inj_length in E as [E1 E2]; [|congruence].
    split; [apply toString36_inj, E2 | exact E1].
  - unfold generateDownloadId. rewrite !length_append, La.
    pose proof (length_substring 2 (Nat.min 9 (String.length (random36 r1) - 2))
                  (random36 r1)) as L.
    unfold Str.substr. cbn [String.length]. lia.
Qed.

Lemma ids_of_this_epoch_witness :
  (generateDownloadId sample_rnd 1700000000000
     = generateDownloadId [10; 11; 12]%N 1700000000001 ->
   1700000000000%N = 1700000000001%N
   /\ Str.substr 2 9 (random36 sample_rnd) = Str.substr 2 9 (random36 [10; 11; 12]%N))
  /\ 11 <= String.length (generateDownloadId sample_rnd 1700000000000) <= 20.
Proof.
  apply ids_of_this_epoch; split; vm_compute; congruence.
Defined.

(* ================================================================== *)
(** * More of the client *)

(** ** The poller: bounds and failures *)

Section PollMore.

Variable getDownloadStatus : nat -> Client.completion Client.DownloadStatus.
Variable onUpdate : Client.DownloadStatus -> Client.completion unit.
Variable maxAttempts : Z.

Local Abbreviation poll' := (Client.poll getDownloadStatus onUpdate maxAttempts).
Local Abbreviation pending_at' := (Client.pending_at getDownloadStatus onUpdate).

Lemma poll_reads_bounds fuel attempts :
  1 <= fuel ->
  1 <= Client.reads (poll' fuel attempts) <= fuel
  /\ Client.reads (poll' fuel attempts) - 1
       <= List.length (Client.updates (poll' fuel attempts))
       <= Client.reads (poll' fuel attempts).
Proof.
  revert attempts. induction fuel as [|fuel IH]; intros attempts H1; [lia|].
  cbn [Client.poll].
  destruct (getDownloadStatus (S attempts)) as [s|e]; [|cbn; lia].
  destruct (onUpdate s) as [u|e]; [|cbn; lia].
  destruct (Client.terminal (Client.status s)); [cbn; lia|].
  destruct (maxAttempts <=? Z.of_nat (S attempts))%Z; [cbn; lia|].
  cbn [Client.reads Client.updates List.length].
  destruct fuel as [|fuel]; [cbn; lia|].
  specialize (IH (S attempts) ltac:(lia)). lia.
Qed.

(** Calls answered with statuses that are not terminal are passed over. *)
Lemma poll_skip d : forall fuel attempts,
  (forall j, attempts < j <= attempts + d -> pending_at' j) ->
  (d = 0 \/ (Z.of_nat (attempts + d) < maxAttempts)%Z) ->
  d < fuel ->
  Client.outcome (poll' fuel attempts)
    = Client.outcome (poll' (fuel - d) (attempts + d))
  /\ Client.reads (poll' fuel attempts)
     = d + Client.reads (poll' (fuel - d) (attempts + d))
  /\ List.length (Client.updates (poll' fuel attempts))
     = d + List.length (Client.updates (poll' (fuel - d) (attempts + d))).
Proof.
  induction d as [|d IH]; intros fuel attempts Hpending Hmax Hfuel.
  - replace (fuel - 0) with fuel by lia. replace (attempts + 0) with attempts by lia.
    auto.
  - destruct fuel as [|fuel]; [lia|]. cbn [Client.poll].
    destruct (Hpending (S attempts) ltac:(lia)) as (s & [G U] & T).
    rewrite G, U, T.
    replace (maxAttempts <=? Z.of_nat (S attempts))%Z with false
      by (symmetry; apply Z.leb_gt; lia).
    cbn [Client.outcome Client.reads Client.updates List.length].
    assert (forall j, S attempts < j <= S attempts + d -> pending_at' j) as Hp
      by (intros j Hj; apply Hpending; lia).
    destruct (IH fuel (S attempts) Hp ltac:(lia) ltac:(lia)) as (Ho & Hr & Hu).
    replace (S fuel - S d) with (fuel - d) by lia.
    replace (attempts + S d) with (S attempts + d) by lia.
    rewrite Ho, Hr, Hu. auto.
Qed.

End PollMore.

(** X15.  Whatever the server and the callback do, the poller's promise
    settles after at least one and at most [maxAttempts] calls of
    [getDownloadStatus] (one if [maxAttempts] is below 1), and it has
    passed to [onUpdate] every status it read: all its calls but, if the
    last one threw, that one. *)
Theorem poller_stays_within_bound
    (getDownloadStatus : nat -> Client.completion Client.DownloadStatus)
    (onUpdate : Client.DownloadStatus -> Client.completion unit)
    (maxAttempts : Z) :
  let run := Client.pollDownloadStatus getDownloadStatus onUpdate maxAttempts in
  is_Some (Client.outcome run)
  /\ 1 <= Client.reads run <= Z.to_nat (Z.max 1 maxAttempts)
  /\ Client.reads run - 1 <= List.length (Client.updates run) <= Client.reads run.
Proof.
  cbn zeta. unfold Client.pollDownloadStatus. split.
  - pose proof (poll_settles getDownloadStatus onUpdate maxAttempts
                  (Z.to_nat (Z.max 1 maxAttempts)) 0 ltac:(lia) ltac:(lia)) as H.
    destruct (Client.outcome _); [eauto | congruence].
  - apply poll_reads_bounds. lia.
Qed.

(** X16.  A failure ends the polling at once and is what the caller gets:
    if call [k], within the attempt bound and after calls that were
    answered with statuses that are not terminal, throws [e], or returns
    a status on which [onUpdate] throws [e], the promise is rejected with
    [e] and no further call is made. *)
Theorem poller_rejects_with_first_failure
    (getDownloadStatus : nat -> Client.completion Client.DownloadStatus)
    (onUpdate : Client.DownloadStatus -> Client.completion unit)
    (maxAttempts : Z) (k : nat) (e : Client.exn) :
  1 <= k <= Z.to_nat (Z.max 1 maxAttempts) ->
  (forall j, 1 <= j < k -> Client.pending_at getDownloadStatus onUpdate j) ->
  getDownloadStatus k = Client.Throw e
  \/ (exists s, getDownloadStatus k = Client.Normal s
                /\ onUpdate s = Client.Throw e) ->
  let run := Client.pollDownloadStatus getDownloadStatus onUpdate maxAttempts in
  Client.outcome run = Some (Client.Rejected e) /\ Client.reads run = k.
Proof.
  intros Hk Hbefore Hfail. cbn zeta. unfold Client.pollDownloadStatus.
  destruct k as [|d]; [lia|].
  destruct (poll_skip getDownloadStatus onUpdate maxAttempts d
              (Z.to_nat (Z.max 1 maxAttempts)) 0) as (Ho & Hr & _);
    [intros j Hj; apply Hbefore; lia | lia | lia |].
  rewrite Ho, Hr. cbn [Nat.add].
  destruct (Z.to_nat (Z.max 1 maxAttempts) - d) as [|fuel] eqn:F; [lia|].
  cbn [Client.poll].
  destruct Hfail as [G|(s & G & U)].
  - rewrite G. cbn. split; [reflexivity | lia].
  - rewrite G, U. cbn. split; [reflexivity | lia].
Qed.

Lemma poller_rejects_with_first_failure_witness :
  let server k :=
    if Nat.ltb k 2 then sample_server k
    else Client.Throw (Client.APIError "HTTP 404: Not Found" (Some 404)) in
  Client.outcome (Client.pollDownloadStatus server quiet 300)
    = Some (Client.Rejected (Client.APIError "HTTP 404: Not Found" (Some 404)))
  /\ Client.reads (Client.pollDownloadStatus server quiet 300) = 2.
Proof.
  cbn zeta.
  apply (poller_rejects_with_first_failure _ quiet 300 2).
  - vm_compute. lia.
  - intros j Hj. assert (j = 1) as -> by lia.
    exists (sample_status 1). split; [split; reflexivity | reflexivity].
  - left. reflexivity.
Defined.

(** ** [isValidVideoUrl] is a substring test on the host *)

Lemma endsWith_includes d s : Str.endsWith d s = true -> Str.includes d s = true.
Proof.
  induction s as [|c s IH]; cbn [Str.endsWith Str.includes].
  - rewrite !orb_false_r. intros E%String.eqb_eq. subst d. reflexivity.
  - intros [E|E]%orb_true_iff.
    + apply String.eqb_eq in E. subst d.
      unfold Str.startsWith.
      rewrite <- (append_nil_r (String c s)) at 2.
      rewrite strip_prefix_app. reflexivity.
    + rewrite (IH E). apply orb_true_r.
Qed.

Lemma Normal_inj {A : Type} (a b : A) :
  Client.Normal a = Client.Normal b -> a = b.
Proof. intros H. injection H as H. exact H. Qed.

(** X17.  [isValidVideoUrl] answers [true] exactly when the URL parses
    and its host name contains one of the twelve domains somewhere; the
    [endsWith] test never decides anything.  So a host that merely
    contains a domain, like [notyoutube.com.example.org], is valid. *)
Theorem isValidVideoUrl_is_substring_test
    (newURL : string -> Client.completion Client.URL) (url : string) :
  Client.isValidVideoUrl newURL url = Client.Normal true <->
  exists urlObj domain before after,
    newURL url = Client.Normal urlObj
    /\ domain ∈ Client.supportedDomains
    /\ Client.hostname urlObj = before ++ domain ++ after.
Proof.
  unfold Client.isValidVideoUrl, Client.try_catch, Client.bind.
  destruct (newURL url) as [urlObj|e].
  - split.
    + intros E. apply Normal_inj in E.
      apply existsb_exists in E as (domain & Hin & H).
      apply orb_true_iff in H as [H|H%endsWith_includes];
        apply includes_spec in H as (x & y & H);
        exists urlObj, domain, x, y;
        (split; [reflexivity | split; [apply list_elem_of_In, Hin | exact H]]).
    + intros (u & domain & x & y & [= <-] & Hin & H). f_equal.
      apply existsb_exists. exists domain.
      split; [apply list_elem_of_In, Hin|].
      apply orb_true_iff. left. apply includes_spec. eauto.
  - split; [discriminate|]. intros (u & _ & _ & _ & H & _). discriminate.
Qed.

(** ** [apiRequest] *)

Import ClientMore.

(** X18.  Whatever [fetch] and [response.json()] do, [apiRequest] either
    returns the parsed body or throws an [APIError]: a [TypeError] or any
    other error never reaches the caller as such. *)
Theorem apiRequest_throws_only_APIError
    (T : Type) (fetched : Client.completion (HttpResponse T)) :
  (exists v, apiRequest fetched = Client.Normal v)
  \/ (exists message http,
        apiRequest fetched = Client.Throw (Client.APIError message http)).
Proof.
  unfold apiRequest, Client.try_catch, Client.bind, error_detail.
  destruct fetched as [response|[m|m h|m]]; [|right; eauto..].
  destruct (ok response); cbn [negb].
  - destruct (json response) as [v|[m|m h|m]]; [left; eauto | right; eauto..].
  - destruct (json response) as [[|detail v]|e]; right; eauto.
Qed.



(** ** The client's paths and the worker's routes *)

Lemma fetch_status_path now rnd jobId s :
  fetch now rnd (getDownloadStatus jobId) s
  = (s, mkResponse 404 "*"
          (NoRoute ("/api/download/" ++ jobId ++ "/status"))).
Proof.
  unfold fetch, getDownloadStatus.
  cbn [method pathname origin body same String.eqb Ascii.eqb Bool.eqb andb
       append corsHeaders].
  rewrite downloadMatch_path.
  assert (Str.all Chars.word (jobId ++ "/status") = false) as A.
  { rewrite all_app. apply andb_false_r. }
  destruct (jobId ++ "/status")%string; [reflexivity|].
  rewrite A. reflexivity.
Qed.

(** X20.  The paths the client uses for the health check and for the
    status of a job, [/health] and [/api/download/{id}/status], are no
    routes of the worker (its own are [/api/health] and
    [/api/download/{id}]): for every id and in every state the worker
    answers them 404 and changes nothing.  [apiRequest] turns that
    answer into an [APIError] with status 404, so a poller whose first
    call gets it is rejected with that error after one call, without any
    [onUpdate]. *)
Theorem client_status_path_is_unrouted
    (now : N) (rnd : list N) (jobId : string) (s : State)
    (statusText : string) (T : Type) (value : T)
    (unwrap : Parsed T -> Client.completion Client.DownloadStatus)
    (server : nat -> Client.completion Client.DownloadStatus)
    (onUpdate : Client.DownloadStatus -> Client.completion unit)
    (maxAttempts : Z) :
  let answer := fetch now rnd (getDownloadStatus jobId) s in
  let failure := Client.APIError ("HTTP 404: " ++ statusText) (Some 404) in
  fetch now rnd healthCheck s = (s, mkResponse 404 "*" (NoRoute "/health"))
  /\ answer = (s, mkResponse 404 "*"
                    (NoRoute ("/api/download/" ++ jobId ++ "/status")))
  /\ apiRequest (Client.Normal (received statusText value (snd answer)))
     = Client.Throw failure
  /\ (server 1 = Client.bind
                   (apiRequest (Client.Normal (received statusText value (snd answer))))
                   unwrap ->
      Client.pollDownloadStatus server onUpdate maxAttempts
      = Client.mkPolled 1 [] (Some (Client.Rejected failure))).
Proof.
  cbn zeta. rewrite fetch_status_path. cbn [snd].
  split; [reflexivity|]. split; [reflexivity|].
  assert (apiRequest (Client.Normal
            (received statusText value
               (mkResponse 404 "*" (NoRoute ("/api/download/" ++ jobId ++ "/status")))))
          = Client.Throw (Client.APIError ("HTTP 404: " ++ statusText) (Some 404)))
    as E by reflexivity.
  split; [exact E|].
  rewrite E. cbn [Client.bind]. intros Hserver.
  unfold Client.pollDownloadStatus.
  destruct (Z.to_nat (Z.max 1 maxAttempts)) as [|fuel] eqn:F; [lia|].
  cbn [Client.poll]. rewrite Hserver. reflexivity.
Qed.

Lemma client_status_path_is_unrouted_witness :
  Client.pollDownloadStatus
    (fun _ => Client.Throw (Client.APIError "HTTP 404: Not Found" (Some 404)))
    quiet 300
  = Client.mkPolled 1 []
      (Some (Client.Rejected (Client.APIError "HTTP 404: Not Found" (Some 404)))).
Proof.
  apply (client_status_path_is_unrouted 10 [] sample_id sample_completed
           "Not Found" unit tt (fun _ => Client.Normal (sample_status 3))).
  reflexivity.
Defined.

(** ** The advertised examples *)

(** X21.  Every entry of the list [GET /api/supported-platforms] answers
    with is consistent with the detector: its example is a URL that
    [detectPlatform] classifies under the entry's own name, from which
    [extractVideoId] extracts an id, and which the page recognises. *)
Theorem supported_examples_are_detected (name : string) (example : Looked) :
  (name, example) ∈ supportedPlatforms ->
  exists url,
    example = Text url
    /\ detectPlatform url = name
    /\ extractVideoId url <> None
    /\ App.detectPlatform url <> "Unknown".
Proof.
  unfold supportedPlatforms, platformPatterns. cbn [map fst].
  intros H.
  repeat (apply elem_of_cons in H as [H|H];
          [injection H as -> ->; eexists; split; [reflexivity|];
           vm_compute; repeat split; discriminate|]).
  inversion H.
Qed.

Lemma supported_examples_are_detected_witness :
  exists url,
    getExampleUrl "vimeo" = Text url
    /\ detectPlatform url = "Vimeo"
    /\ extractVideoId url <> None
    /\ App.detectPlatform url <> "Unknown".
Proof.
  apply supported_examples_are_detected.
  vm_compute. do 4 apply list_elem_of_further. apply list_elem_of_here.
Defined.

(** ** [formatDuration] *)




















(** Seconds are shown with two digits, and so are minutes after hours. *)
Example formatDuration_samples :
  map (fun n => formatDuration (Some n)) [5; 59; 60; 212; 3599; 3600; 3661; 360000]%N
  = ["0:05"; "0:59"; "1:00"; "3:32"; "59:59"; "1:00:00"; "1:01:01"; "100:00:00"].
Proof. vm_compute. reflexivity. Qed.

